(** * French grammar checker: rule orchestrator, result assembler and utilities

    A shallow embedding of
      - [app/cors/__init__.py]        (RuleType, GrammarError, FrenchGrammarRules),
      - [app/cors/grammar_checker.py] (GrammarCheckResult, FrenchGrammarChecker),
      - [app/common/utils.py]         (sentence analysis, tense detection,
                                       adverb placement),
      - [app/common/constraints.py]   (FRENCH_POS_TAGS),
    followed by the properties of the orchestrator and of the helpers.

    Conventions.
      - A Python [str] is a list of Unicode code points ([N]); [len], slicing
        and [strip] then count characters exactly as Python does.
      - A Python [int] is a [Z].
      - A Python [dict] whose iteration order is observed (the rule registry)
        is an insertion-ordered association list; a [dict] that is only
        looked up (the per-category counters, the POS table) is a [gmap].
      - Printing, the spaCy pipelines and the text-generation pipeline are
        effects: they are threaded through an explicit [World], and code that
        may raise returns an [Outcome]. *)

From Stdlib Require Import ZArith String Ascii Sorted.
From stdpp Require Import gmap list sorting.

Local Open Scope Z_scope.

(* ================================================================== *)
(** * Python strings *)
(* ================================================================== *)

Definition char := N.
Definition str := list char.

(** Literals are written as UTF-8 text and decoded to code points. *)
Fixpoint utf8_decode (bs : list N) : str :=
  match bs with
  | [] => []
  | b0 :: r0 =>
    if (b0 <? 128)%N then b0 :: utf8_decode r0 else
    match r0 with
    | [] => [b0]
    | b1 :: r1 =>
      if (b0 <? 224)%N
      then ((b0 - 192) * 64 + (b1 - 128))%N :: utf8_decode r1
      else
        match r1 with
        | [] => [b0; b1]
        | b2 :: r2 =>
          if (b0 <? 240)%N
          then (((b0 - 224) * 64 + (b1 - 128)) * 64 + (b2 - 128))%N
                 :: utf8_decode r2
          else
            match r2 with
            | [] => [b0; b1; b2]
            | b3 :: r3 =>
              ((((b0 - 240) * 64 + (b1 - 128)) * 64 + (b2 - 128)) * 64
               + (b3 - 128))%N :: utf8_decode r3
            end
        end
    end
  end.

Definition u (s : string) : str :=
  utf8_decode (map N_of_ascii (list_ascii_of_string s)).

(** [len(s)] *)
Definition len (s : str) : Z := Z.of_nat (length s).

(** [a == b] on strings. *)
Definition str_eqb (a b : str) : bool := bool_decide (a = b).

(** [x in (a, b, ...)] for a tuple of strings. *)
Definition str_in (x : str) (xs : list str) : bool := bool_decide (x ∈ xs).

(** [str.isspace()] on one character: the code points Python treats as
    whitespace (bidirectional class WS, B or S, or category Zs). *)
Definition isspace (c : char) : bool :=
  bool_decide (c ∈ [9; 10; 11; 12; 13; 28; 29; 30; 31; 32; 133; 160; 5760;
                    8192; 8193; 8194; 8195; 8196; 8197; 8198; 8199; 8200;
                    8201; 8202; 8232; 8233; 8239; 8287; 12288]%N).

Fixpoint lstrip (s : str) : str :=
  match s with
  | [] => []
  | c :: r => if isspace c then lstrip r else s
  end.

Definition rstrip (s : str) : str := reverse (lstrip (reverse s)).

(** [s.strip()] *)
Definition strip (s : str) : str := rstrip (lstrip s).

(** A slice bound [i] of [s[lo:hi]]: negative bounds count from the end, and
    every bound is clamped into [0, len(s)]. *)
Definition slice_bound (n : Z) (i : Z) : nat :=
  Z.to_nat (if i <? 0 then Z.max (i + n) 0 else Z.min i n).

(** [s[lo:hi]], a missing bound being [None]. *)
Definition slice (s : str) (lo hi : option Z) : str :=
  let n := len s in
  let a := match lo with Some i => slice_bound n i | None => 0%nat end in
  let b := match hi with Some i => slice_bound n i | None => length s end in
  drop a (take b s).

(* ================================================================== *)
(** * Insertion-ordered dictionaries *)
(* ================================================================== *)

Section PyDict.
Context {K V : Type} `{EqDecision K}.

Definition dict := list (K * V).

(** [d.get(k)] *)
Fixpoint dict_get (d : dict) (k : K) : option V :=
  match d with
  | [] => None
  | (k', v) :: r => if decide (k' = k) then Some v else dict_get r k
  end.

(** [d[k] = v]: an existing key keeps its position, a new key goes last. *)
Fixpoint dict_set (d : dict) (k : K) (v : V) : dict :=
  match d with
  | [] => [(k, v)]
  | (k', v') :: r =>
    if decide (k' = k) then (k, v) :: r else (k', v') :: dict_set r k v
  end.

(** [d.keys()] and [d.values()], in iteration order. *)
Definition dict_keys (d : dict) : list K := d.*1.
Definition dict_values (d : dict) : list V := d.*2.
End PyDict.
Arguments dict : clear implicits.

(* ================================================================== *)
(** * [sorted(xs, key=...)] *)
(* ================================================================== *)

(** Python's [sorted] is stable: it returns the one arrangement of [xs] that
    is ordered by key and in which elements of equal key keep their relative
    order.  Inserting the elements one by one, from the last to the first,
    each before the first element whose key is not smaller, computes that
    arrangement. *)
Section Sorted.
Context {A : Type} (key : A -> Z).

Fixpoint insert_by_key (x : A) (l : list A) : list A :=
  match l with
  | [] => [x]
  | y :: r => if key x <=? key y then x :: l else y :: insert_by_key x r
  end.

Definition sorted (xs : list A) : list A := foldr insert_by_key [] xs.
End Sorted.

(* ================================================================== *)
(** * Effects: exceptions, the outside world, and a small monad *)
(* ================================================================== *)

(** An instance of Python's [Exception]; [str(e)] is its message.  What
    [except Exception] lets through ([KeyboardInterrupt], [SystemExit]) ends
    the process and is not modelled. *)
Inductive exn := Exception (msg : str).

Definition exn_str (e : exn) : str := match e with Exception msg => msg end.

Inductive Outcome (A : Type) :=
  | Returned (a : A)
  | Raised (e : exn).
Arguments Returned {A} a.
Arguments Raised {A} e.

(** What the program does to its environment: the texts handed to a spaCy
    pipeline, the prompts handed to the text-generation pipeline, and the
    lines printed, each oldest first. *)
Record World := mkWorld {
  parser_calls : list str;
  ai_calls : list str;
  stdout : list str
}.

Definition M (A : Type) : Type := World -> Outcome A * World.

Definition ret {A} (a : A) : M A := fun w => (Returned a, w).

Definition raise {A} (e : exn) : M A := fun w => (Raised e, w).

Definition bind {A B} (m : M A) (k : A -> M B) : M B :=
  fun w =>
    match m w with
    | (Returned a, w') => k a w'
    | (Raised e, w') => (Raised e, w')
    end.

Notation "'do' x <- m ;; k" := (bind m (fun x => k))
  (at level 10, x name, m at level 99, k at level 200).

(** [try: body  except Exception as e: handler(e)] *)
Definition try_except {A} (body : M A) (handler : exn -> M A) : M A :=
  fun w =>
    match body w with
    | (Returned a, w') => (Returned a, w')
    | (Raised e, w') => handler e w'
    end.

(** [print(line)] *)
Definition print (line : str) : M unit :=
  fun w => (Returned tt,
            {| parser_calls := parser_calls w;
               ai_calls := ai_calls w;
               stdout := stdout w ++ [line] |}).

(* ================================================================== *)
(** * The external collaborators *)
(* ================================================================== *)

(** A spaCy token, with the attributes the program reads.  [tok_i] is the
    token's index in its document and [tok_head] the index of its head (a
    root is its own head), [tok_text] is [token.text]. *)
Record Token := mkToken {
  tok_text : str;
  lemma_ : str;
  pos_ : str;
  tag_ : str;
  dep_ : str;
  tok_i : nat;
  tok_head : nat;
  is_punct : bool;
  is_stop : bool
}.

#[global] Instance Token_eq_dec : EqDecision Token.
Proof. solve_decision. Defined.

Definition Doc := list Token.

(** [token.head] *)
Definition head_of (doc : Doc) (token : Token) : Token :=
  nth (tok_head token) doc token.

(** [token.lefts] and [token.rights]: the children of [token] before and
    after it, in document order. *)
Definition lefts (doc : Doc) (token : Token) : list Token :=
  filter (fun t => tok_head t = tok_i token /\ (tok_i t < tok_i token)%nat) doc.

Definition rights (doc : Doc) (token : Token) : list Token :=
  filter (fun t => tok_head t = tok_i token /\ (tok_i token < tok_i t)%nat) doc.

(** A loaded spaCy pipeline.  Its answer may depend on the texts parsed so
    far, and it may raise. *)
Definition Pipeline := list str -> str -> Outcome Doc.

(** [pipeline(text)] *)
Definition call_pipeline (pipeline : Pipeline) (text : str) : M Doc :=
  fun w => (pipeline (parser_calls w) text,
            {| parser_calls := parser_calls w ++ [text];
               ai_calls := ai_calls w;
               stdout := stdout w |}).

(** One element of a text-generation output: a dict that may hold the key
    ["generated_text"]. *)
Record Generation := mkGeneration { generated_text : option str }.

(** A loaded text-generation pipeline (sampling, so its answer may depend on
    the prompts seen so far), which may raise. *)
Definition TextGenerator := list str -> str -> Outcome (list Generation).

(** [generator(prompt, max_length=512, num_return_sequences=1, temperature=0.7)] *)
Definition call_generator (generator : TextGenerator) (prompt : str)
  : M (list Generation) :=
  fun w => (generator (ai_calls w) prompt,
            {| parser_calls := parser_calls w;
               ai_calls := ai_calls w ++ [prompt];
               stdout := stdout w |}).

(* ================================================================== *)
(** * app/cors/__init__.py *)
(* ================================================================== *)

Module rules.

Inductive RuleType :=
  | ADVERB | CONJUGATION | AGREEMENT | STRUCTURE | PUNCTUATION.

#[global] Instance RuleType_eq_dec : EqDecision RuleType.
Proof. solve_decision. Defined.

(** The members in definition order ([for rule_type in RuleType]). *)
Definition RuleType_members : list RuleType :=
  [ADVERB; CONJUGATION; AGREEMENT; STRUCTURE; PUNCTUATION].

(** The values given by [auto()]. *)
Definition RuleType_value (t : RuleType) : Z :=
  match t with
  | ADVERB => 1 | CONJUGATION => 2 | AGREEMENT => 3
  | STRUCTURE => 4 | PUNCTUATION => 5
  end.

(** [str(rule_type)] *)
Definition RuleType_str (t : RuleType) : str :=
  match t with
  | ADVERB => u "RuleType.ADVERB"
  | CONJUGATION => u "RuleType.CONJUGATION"
  | AGREEMENT => u "RuleType.AGREEMENT"
  | STRUCTURE => u "RuleType.STRUCTURE"
  | PUNCTUATION => u "RuleType.PUNCTUATION"
  end.

Definition french_label (self : RuleType) : str :=
  match self with
  | ADVERB => u "Place des adverbes"
  | CONJUGATION => u "Conjugaison"
  | AGREEMENT => u "Accord"
  | STRUCTURE => u "Structure de phrase"
  | PUNCTUATION => u "Ponctuation"
  end.

Record GrammarError := mkGrammarError {
  rule_type : RuleType;
  message : str;
  suggestion : str;
  context : str;
  start_pos : Z;
  end_pos : Z;
  source_text : str
}.

#[global] Instance GrammarError_eq_dec : EqDecision GrammarError.
Proof. solve_decision. Defined.

(** [error.source_text = text] *)
Definition set_source_text (error : GrammarError) (text : str) : GrammarError :=
  {| rule_type := rule_type error;
     message := message error;
     suggestion := suggestion error;
     context := context error;
     start_pos := start_pos error;
     end_pos := end_pos error;
     source_text := text |}.

(** The [highlighted] property.  A property is a method on a mutable object:
    it takes [self] and gives back the value computed together with the
    object as the call leaves it. *)
Definition highlighted (self : GrammarError) : str * GrammarError :=
  let before := slice (source_text self) None (Some (start_pos self)) in
  let error := slice (source_text self) (Some (start_pos self))
                     (Some (end_pos self)) in
  let after := slice (source_text self) (Some (end_pos self)) None in
  (before ++ u ">>>" ++ error ++ u "<<<" ++ after, self).

(** The [GrammarRule] protocol: an object with an [apply] method and a
    [rule_type] property.  The four built-in implementations
    ([adverb_rules], [conjugation_rules], [agreement_rules],
    [sentence_structure_rules]) are not part of the sources at hand and the
    registry accepts any other implementation, so a rule is an arbitrary
    function from the parsed document to a list of errors, or to an
    exception.  Rule objects hold no state of their own: what [apply]
    answers depends on the document alone.  This is an [apply] that keeps
    to its annotation, [List[GrammarError]]; [RuleObject], further down,
    is an [apply] that may give any iterable. *)
Record GrammarRule := mkGrammarRule {
  rule_type_of : RuleType;
  rule_apply : Doc -> Outcome (list GrammarError)
}.

(** Any object handed to [add_rule]: [isinstance(rule, GrammarRule)] holds
    exactly for those that have both members of the protocol. *)
Inductive PyObject :=
  | a_rule (rule : GrammarRule)
  | not_a_rule.

Record FrenchGrammarRules := mkFrenchGrammarRules {
  nlp : Pipeline;
  _rules : dict RuleType GrammarRule
}.

(** [_load_rules], given the four built-in rule objects. *)
Definition _load_rules
    (AdverbRules ConjugationRules AgreementRules SentenceStructureRules
       : GrammarRule)
  : dict RuleType GrammarRule :=
  [ (ADVERB, AdverbRules);
    (CONJUGATION, ConjugationRules);
    (AGREEMENT, AgreementRules);
    (STRUCTURE, SentenceStructureRules) ].

(** [FrenchGrammarRules(nlp_model)], given the pipeline that
    [spacy.load] returns. *)
Definition __init__ (loaded : Pipeline)
    (AdverbRules ConjugationRules AgreementRules SentenceStructureRules
       : GrammarRule)
  : FrenchGrammarRules :=
  {| nlp := loaded;
     _rules := _load_rules AdverbRules ConjugationRules AgreementRules
                           SentenceStructureRules |}.

(** The body of the inner loop of [check]:
    [for error in produced: error.source_text = text; errors.append(error)].
    The assignment updates the object the rule returned; all assignments of
    one call write the same text, so the values the list holds when [check]
    returns are these whether or not rules share error objects. *)
Definition attach_all (text : str) (produced errors : list GrammarError)
  : list GrammarError :=
  foldl (fun errors error => errors ++ [set_source_text error text])
        errors produced.

(** One turn of the outer loop of [check], for an [apply] that keeps to its
    annotation and returns a list: it raises, if it does, before anything
    was appended.  [check_objects] below is the same loop for whatever
    [add_rule] lets in. *)
Definition apply_guarded (doc : Doc) (text : str) (rule : GrammarRule)
    (errors : list GrammarError) : M (list GrammarError) :=
  try_except
    (fun w => match rule_apply rule doc with
              | Returned produced => ret (attach_all text produced errors) w
              | Raised e => raise e w
              end)
    (fun e =>
       do _ <- print (u "Error applying " ++ RuleType_str (rule_type_of rule)
                      ++ u " rules: " ++ exn_str e) ;;
       ret errors).

(** [for rule in self._rules.values(): ...] *)
Fixpoint for_each_rule (rules : list GrammarRule) (doc : Doc) (text : str)
    (errors : list GrammarError) : M (list GrammarError) :=
  match rules with
  | [] => ret errors
  | rule :: rest =>
    do errors' <- apply_guarded doc text rule errors ;;
    for_each_rule rest doc text errors'
  end.

Definition check (self : FrenchGrammarRules) (text : str)
  : M (list GrammarError) :=
  do doc <- call_pipeline (nlp self) text ;;
  do errors <- for_each_rule (dict_values (_rules self)) doc text [] ;;
  ret (sorted start_pos errors).

Definition get_rule (self : FrenchGrammarRules) (rule_type : RuleType)
  : option GrammarRule :=
  dict_get (_rules self) rule_type.

(** [add_rule] returns nothing and updates [self]. *)
Definition add_rule (self : FrenchGrammarRules) (rule : PyObject)
  : FrenchGrammarRules :=
  match rule with
  | a_rule r =>
    {| nlp := nlp self; _rules := dict_set (_rules self) (rule_type_of r) r |}
  | not_a_rule => self
  end.

End rules.

(* ================================================================== *)
(** * app/common/constraints.py *)
(* ================================================================== *)

(** [utils.py] imports this table from [.constants]. *)
Module constants.

Definition FRENCH_POS_TAGS : gmap str str :=
  list_to_map
    [ (u "NOUN", u "Nom");
      (u "VERB", u "Verbe");
      (u "ADV", u "Adverbe");
      (u "ADJ", u "Adjectif");
      (u "PRON", u "Pronom");
      (u "DET", u "Déterminant");
      (u "ADP", u "Préposition");
      (u "CONJ", u "Conjonction");
      (u "SCONJ", u "Conjonction de subordination");
      (u "CCONJ", u "Conjonction de coordination");
      (u "AUX", u "Auxiliaire");
      (u "PART", u "Particule");
      (u "INTJ", u "Interjection");
      (u "NUM", u "Numéral");
      (u "PROPN", u "Nom propre");
      (u "PUNCT", u "Ponctuation");
      (u "SYM", u "Symbole");
      (u "X", u "Autre");
      (u "SUBJ", u "Sujet") ].

End constants.

(* ================================================================== *)
(** * app/common/utils.py *)
(* ================================================================== *)

Module utils.
Import constants.

Definition get_french_pos_tag (spacy_tag : str) : str :=
  default spacy_tag (FRENCH_POS_TAGS !! spacy_tag).

(** The dict built for one token by [analyze_sentence_structure]. *)
Record TokenInfo := mkTokenInfo {
  info_text : str;
  info_lemma : str;
  info_pos : str;
  info_french_pos : str;
  info_tag : str;
  info_dep : str;
  info_is_punctuation : bool;
  info_is_stop : bool
}.

Definition token_info (token : Token) : TokenInfo :=
  {| info_text := tok_text token;
     info_lemma := lemma_ token;
     info_pos := pos_ token;
     info_french_pos :=
       if str_in (dep_ token) [u "nsubj"; u "nsubj:pass"]
       then u "Sujet"
       else get_french_pos_tag (pos_ token);
     info_tag := tag_ token;
     info_dep := dep_ token;
     info_is_punctuation := is_punct token;
     info_is_stop := is_stop token |}.

(** In the source the first test of the passé composé opens a parenthesis it
    never closes; the condition is read as the conjunction it spells. *)
Definition detect_compound_tenses (verb_phrase : list Token) : option str :=
  let auxiliaries := filter (fun t => pos_ t = u "AUX") verb_phrase in
  let verbs :=
    filter (fun t => pos_ t = u "VERB" /\ lemma_ t <> u "être"
                     /\ lemma_ t <> u "avoir") verb_phrase in
  if bool_decide (auxiliaries = [] \/ verbs = []) then None
  else
    match auxiliaries with
    | [aux0] =>
      if str_in (lemma_ aux0) [u "avoir"; u "être"]
      then Some (u "passé composé")
      else None
    | [aux0; aux1] =>
      if str_in (lemma_ aux0) [u "avoir"; u "être"]
         && str_eqb (lemma_ aux1) (u "avoir")
      then Some (u "plus-que-parfait")
      else None
    | _ => None
    end.

(** The body of the loop of [validate_adverb_placement] for one token: the
    message of the [return] it reaches, if it reaches one. *)
Definition adverb_violation (doc : Doc) (token : Token) : option str :=
  if str_eqb (pos_ token) (u "ADV") then
    let head := head_of doc token in
    if str_eqb (pos_ head) (u "VERB")
       && existsb (fun t => str_in (dep_ t) [u "nsubj"; u "nsubj:pass"])
                  (lefts doc head)
    then Some (u "Adverbe '" ++ tok_text token
               ++ u "' mal placé. En français, l'adverbe ne doit généralement pas séparer le sujet et le verbe.")
    else if str_eqb (pos_ head) (u "AUX") && (tok_i head <? tok_i token)%nat
    then
      match detect_compound_tenses
              ([head] ++ filter (fun t => pos_ t = u "VERB") (rights doc head))
      with
      | Some tense =>
        if bool_decide (tense = []) then None
        else Some (u "Dans le " ++ tense ++ u ", l'adverbe '" ++ tok_text token
                   ++ u "' devrait normalement se placer après l'auxiliaire '"
                   ++ tok_text head ++ u "'.")
      | None => None
      end
    else None
  else None.

(** [for token in doc: ...] followed by [return (True, None)]. *)
Fixpoint for_each_token (doc : Doc) (tokens : list Token)
  : bool * option str :=
  match tokens with
  | [] => (true, None)
  | token :: rest =>
    match adverb_violation doc token with
    | Some msg => (false, Some msg)
    | None => for_each_token doc rest
    end
  end.

Section with_nlp.
(** The module-level [nlp = spacy.load("fr_core_news_lg")]. *)
Variable nlp : Pipeline.

Definition analyze_sentence_structure (sentence : str)
  : M (list TokenInfo) :=
  do doc <- call_pipeline nlp sentence ;;
  ret (map token_info doc).

Definition validate_adverb_placement (sentence : str)
  : M (bool * option str) :=
  do doc <- call_pipeline nlp sentence ;;
  ret (for_each_token doc doc).
End with_nlp.

End utils.

(* ================================================================== *)
(** * app/cors/grammar_checker.py *)
(* ================================================================== *)

Module grammar_checker.
Import rules.

(** The value of [stats]: a dict with the two keys ["total_errors"] and
    ["by_type"]. *)
Record Stats := mkStats {
  total_errors : Z;
  by_type : gmap str Z
}.

Record GrammarCheckResult := mkGrammarCheckResult {
  original_text : str;
  errors : list GrammarError;
  structure : list utils.TokenInfo;
  ai_suggestions : list str;
  stats : Stats
}.

Record FrenchGrammarChecker := mkFrenchGrammarChecker {
  rule_checker : FrenchGrammarRules;
  ai_grammar_model : TextGenerator;
  _nlp : Pipeline
}.

(** [output[0]["generated_text"]] *)
Definition first_generated_text (output : list Generation) : M str :=
  match output with
  | [] => raise (Exception (u "list index out of range"))
  | first :: _ =>
    match generated_text first with
    | Some text => ret text
    | None => raise (Exception (u "'generated_text'"))
    end
  end.

(** [for prompt in prompts: ...; results.append(...)] *)
Fixpoint for_each_prompt (self : FrenchGrammarChecker) (prompts : list str)
    (results : list str) : M (list str) :=
  match prompts with
  | [] => ret results
  | prompt :: rest =>
    do output <- call_generator (ai_grammar_model self) prompt ;;
    do text <- first_generated_text output ;;
    for_each_prompt self rest (results ++ [text])
  end.

(** The two elements of the list [prompts] of [_get_ai_suggestions]. *)
Definition first_prompt (text : str) : str :=
  u "Corrigez cette phrase en français en expliquant la règle: " ++ text.

Definition second_prompt (text : str) : str :=
  u "Suggestions d'amélioration pour: " ++ text.

Definition _get_ai_suggestions (self : FrenchGrammarChecker) (text : str)
    (errors : list GrammarError) : M (list str) :=
  try_except
    (if bool_decide (errors = []) then ret []
     else
       let prompts := [first_prompt text; second_prompt text] in
       do results <- for_each_prompt self prompts [] ;;
       ret results)
    (fun e =>
       do _ <- print (u "AI suggestion failed: " ++ exn_str e) ;;
       ret []).

(** [by_type[label] += 1], which raises [KeyError] on a missing label. *)
Definition increment (by_type : gmap str Z) (label : str) : M (gmap str Z) :=
  match by_type !! label with
  | Some count => ret (<[label := count + 1]> by_type)
  | None => raise (Exception (u "'" ++ label ++ u "'"))
  end.

(** [for error in errors: stats["by_type"][...] += 1] *)
Fixpoint count_by_type (errors : list GrammarError) (by_type : gmap str Z)
  : M (gmap str Z) :=
  match errors with
  | [] => ret by_type
  | error :: rest =>
    do by_type' <- increment by_type (french_label (rule_type error)) ;;
    count_by_type rest by_type'
  end.

Definition _generate_stats (errors : list GrammarError) : M Stats :=
  let zeros : gmap str Z :=
    list_to_map (map (fun rule_type => (french_label rule_type, 0))
                     RuleType_members) in
  do by_type' <- count_by_type errors zeros ;;
  ret {| total_errors := Z.of_nat (length errors); by_type := by_type' |}.

Definition _empty_result (text : str) : GrammarCheckResult :=
  {| original_text := text;
     errors := [];
     structure := [];
     ai_suggestions := [];
     stats := {| total_errors := 0; by_type := ∅ |} |}.

Section with_utils_nlp.
(** The pipeline behind [analyze_sentence_structure]. *)
Variable utils_nlp : Pipeline.

Definition check (self : FrenchGrammarChecker) (text : str)
  : M GrammarCheckResult :=
  if bool_decide (strip text = []) then ret (_empty_result text)
  else
    do errors <- rules.check (rule_checker self) text ;;
    do ai_suggestions <- _get_ai_suggestions self text errors ;;
    do structure <- utils.analyze_sentence_structure utils_nlp text ;;
    do stats <- _generate_stats errors ;;
    ret {| original_text := text;
           errors := errors;
           structure := structure;
           ai_suggestions := ai_suggestions;
           stats := stats |}.
End with_utils_nlp.

End grammar_checker.

(* ================================================================== *)
(** * Vocabulary of the properties *)
(* ================================================================== *)

Import rules utils.

(** ** Strings *)

Definition all_whitespace (s : str) : Prop :=
  Forall (fun c => isspace c = true) s.

(** [needle in s] on strings. *)
Fixpoint starts_with (s prefix : str) : bool :=
  match prefix, s with
  | [], _ => true
  | _ :: _, [] => false
  | a :: prefix', b :: s' => (a =? b)%N && starts_with s' prefix'
  end.

Fixpoint str_contains (s needle : str) : bool :=
  starts_with s needle
  || match s with
     | [] => false
     | _ :: r => str_contains r needle
     end.

(** ** Worlds *)

Definition after_parse (w : World) (text : str) : World :=
  {| parser_calls := parser_calls w ++ [text];
     ai_calls := ai_calls w;
     stdout := stdout w |}.

Definition after_prompt (w : World) (prompt : str) : World :=
  {| parser_calls := parser_calls w;
     ai_calls := ai_calls w ++ [prompt];
     stdout := stdout w |}.

Definition after_print (w : World) (lines : list str) : World :=
  {| parser_calls := parser_calls w;
     ai_calls := ai_calls w;
     stdout := stdout w ++ lines |}.

(** ** The orchestrator *)

(** What one rule adds to the error list for a parsed text. *)
Definition contribution (doc : Doc) (text : str) (rule : GrammarRule)
  : list GrammarError :=
  match rule_apply rule doc with
  | Returned produced => map (fun e => set_source_text e text) produced
  | Raised _ => []
  end.

(** The error list before it is sorted: the contributions of the rules, in
    the iteration order of the registry. *)
Definition collected (rules : list GrammarRule) (doc : Doc) (text : str)
  : list GrammarError :=
  concat (map (contribution doc text) rules).

(** The lines printed for the rules that raise. *)
Definition failure_lines (rules : list GrammarRule) (doc : Doc) : list str :=
  concat (map (fun rule =>
                 match rule_apply rule doc with
                 | Returned _ => []
                 | Raised e =>
                   [u "Error applying " ++ RuleType_str (rule_type_of rule)
                    ++ u " rules: " ++ exn_str e]
                 end) rules).

Definition by_start (a b : GrammarError) : Prop :=
  start_pos a <= start_pos b.

(** Start offset first, category (in enum order) on equal offsets. *)
Definition by_start_then_category (a b : GrammarError) : Prop :=
  start_pos a < start_pos b
  \/ (start_pos a = start_pos b
      /\ RuleType_value (rule_type a) <= RuleType_value (rule_type b)).

(** The errors at one start offset, in the order of the list. *)
Definition starting_at (k : Z) (l : list GrammarError) : list GrammarError :=
  filter (fun e => start_pos e = k) l.

(** The registries the program can build: the constructor's, then any
    number of [add_rule]. *)
Inductive constructed : FrenchGrammarRules -> Prop :=
  | constructed_init loaded adverb conjugation agreement structure :
      constructed (__init__ loaded adverb conjugation agreement structure)
  | constructed_add self obj :
      constructed self -> constructed (add_rule self obj).

(** Every rule reports only errors of the category it is registered under. *)
Definition emits_own_category (self : FrenchGrammarRules) (doc : Doc) : Prop :=
  forall k rule produced e,
    (k, rule) ∈ _rules self ->
    rule_apply rule doc = Returned produced ->
    e ∈ produced ->
    rule_type e = k.

(** A parser that answers by the text alone. *)
Definition deterministic (parser : Pipeline) : Prop :=
  forall history history' text, parser history text = parser history' text.

(** ** Compound tenses, as the specification words them *)

Definition passe_compose : str := u "passé composé".
Definition plus_que_parfait : str := u "plus-que-parfait".

Definition is_auxiliary (t : Token) : Prop := pos_ t = u "AUX".

Definition past_participle_tagged (t : Token) : Prop :=
  pos_ t = u "VERB" /\ str_contains (tag_ t) (u "VerbForm=Part") = true.

(** Exactly one auxiliary, of lemma avoir or être, governing a
    past-participle-tagged verb. *)
Definition spec_passe_compose (verb_phrase : list Token) : Prop :=
  exists aux verb,
    filter is_auxiliary verb_phrase = [aux]
    /\ lemma_ aux ∈ [u "avoir"; u "être"]
    /\ verb ∈ verb_phrase
    /\ past_participle_tagged verb
    /\ tok_head verb = tok_i aux.

(** Two auxiliaries before the participle, the first of lemma avoir or être,
    the second of lemma avoir. *)
Definition spec_plus_que_parfait (verb_phrase : list Token) : Prop :=
  exists aux0 aux1 verb,
    filter is_auxiliary verb_phrase = [aux0; aux1]
    /\ lemma_ aux0 ∈ [u "avoir"; u "être"]
    /\ lemma_ aux1 = u "avoir"
    /\ verb ∈ verb_phrase
    /\ past_participle_tagged verb
    /\ (tok_i aux0 < tok_i verb)%nat /\ (tok_i aux1 < tok_i verb)%nat.

(** What the code looks for instead of a participle: any token tagged VERB
    whose lemma is neither être nor avoir. *)
Definition is_main_verb (t : Token) : Prop :=
  pos_ t = u "VERB" /\ lemma_ t <> u "être" /\ lemma_ t <> u "avoir".

(** The same two classes with the test the code makes on the verb: some
    main verb is in the list, whatever its form and wherever it stands. *)
Definition code_passe_compose (verb_phrase : list Token) : Prop :=
  exists aux verb,
    filter is_auxiliary verb_phrase = [aux]
    /\ lemma_ aux ∈ [u "avoir"; u "être"]
    /\ verb ∈ verb_phrase
    /\ is_main_verb verb.

Definition code_plus_que_parfait (verb_phrase : list Token) : Prop :=
  exists aux0 aux1 verb,
    filter is_auxiliary verb_phrase = [aux0; aux1]
    /\ lemma_ aux0 ∈ [u "avoir"; u "être"]
    /\ lemma_ aux1 = u "avoir"
    /\ verb ∈ verb_phrase
    /\ is_main_verb verb.

(** ** Adverb placement *)

(** The token is an adverb that one of the two placement tests rejects. *)
Definition misplaced (doc : Doc) (token : Token) : Prop :=
  adverb_violation doc token <> None.

Definition n_misplaced (doc : Doc) : Z :=
  Z.of_nat (length (filter (misplaced doc) doc)).

(** The number of violations a result of [validate_adverb_placement]
    reports. *)
Definition n_reported (result : bool * option str) : Z :=
  match result.2 with
  | Some _ => 1
  | None => 0
  end.

(** ** The assembled result *)

(** Everything in a result but the AI suggestions. *)
Definition without_suggestions (r : grammar_checker.GrammarCheckResult)
  : str * list GrammarError * list TokenInfo * grammar_checker.Stats :=
  (grammar_checker.original_text r, grammar_checker.errors r,
   grammar_checker.structure r, grammar_checker.stats r).

Definition outcome_map {A B} (f : A -> B) (o : Outcome A) : Outcome B :=
  match o with
  | Returned a => Returned (f a)
  | Raised e => Raised e
  end.

(* ================================================================== *)
(** * Worked inputs *)
(* ================================================================== *)

Definition world0 : World := mkWorld [] [] [].

Definition tok (text lemma pos tag dep : string) (i head : nat) : Token :=
  mkToken (u text) (u lemma) (u pos) (u tag) (u dep) i head false false.

(** "Je souvent rapidement mange": two adverbs between subject and verb. *)
Definition doc_two_adverbs : Doc :=
  [ tok "Je" "je" "PRON" "Number=Sing|Person=1" "nsubj" 0 3;
    tok "souvent" "souvent" "ADV" "" "advmod" 1 3;
    tok "rapidement" "rapidement" "ADV" "" "advmod" 2 3;
    tok "mange" "manger" "VERB" "Mood=Ind|Tense=Pres|VerbForm=Fin" "ROOT" 3 3 ].

(** "Je mange rapidement": nothing to report. *)
Definition doc_no_violation : Doc :=
  [ tok "Je" "je" "PRON" "Number=Sing|Person=1" "nsubj" 0 1;
    tok "mange" "manger" "VERB" "Mood=Ind|Tense=Pres|VerbForm=Fin" "ROOT" 1 1;
    tok "rapidement" "rapidement" "ADV" "" "advmod" 2 2 ].

(** "a manger", as in "Il a manger": an auxiliary and an infinitive. *)
Definition vp_a_manger : list Token :=
  [ tok "a" "avoir" "AUX" "Mood=Ind|Tense=Pres|VerbForm=Fin" "ROOT" 1 1;
    tok "manger" "manger" "VERB" "VerbForm=Inf" "xcomp" 2 1 ].

(** "J'ai rapidement mangé", the adverb and the participle attached to the
    auxiliary. *)
Definition doc_compound : Doc :=
  [ tok "J'" "je" "PRON" "Number=Sing|Person=1" "nsubj" 0 1;
    tok "ai" "avoir" "AUX" "Mood=Ind|Tense=Pres|VerbForm=Fin" "ROOT" 1 1;
    tok "rapidement" "rapidement" "ADV" "" "advmod" 2 1;
    tok "mangé" "manger" "VERB" "Tense=Past|VerbForm=Part" "xcomp" 3 1 ].

(** "avait eu manger": two auxiliaries and an infinitive. *)
Definition vp_avait_eu_manger : list Token :=
  [ tok "avait" "avoir" "AUX" "Mood=Ind|Tense=Imp|VerbForm=Fin" "ROOT" 1 1;
    tok "eu" "avoir" "AUX" "Tense=Past|VerbForm=Part" "aux" 2 1;
    tok "manger" "manger" "VERB" "VerbForm=Inf" "xcomp" 3 1 ].

(** A pipeline that returns the same document whatever it is given. *)
Definition parser_always (doc : Doc) : Pipeline := fun _ _ => Returned doc.

Definition error_at (t : RuleType) (msg : string) (a b : Z) : GrammarError :=
  mkGrammarError t (u msg) (u "") (u "") a b [].

Definition rule_reporting (t : RuleType) (l : list GrammarError)
  : GrammarRule :=
  mkGrammarRule t (fun _ => Returned l).

Definition rule_raising (t : RuleType) (msg : string) : GrammarRule :=
  mkGrammarRule t (fun _ => Raised (Exception (u msg))).

(** A checker whose rules each report under their own category; two errors
    start at offset 3. *)
Definition checker_own_categories : FrenchGrammarRules :=
  __init__ (parser_always doc_no_violation)
    (rule_reporting ADVERB [error_at ADVERB "adverb" 3 8])
    (rule_reporting CONJUGATION [])
    (rule_reporting AGREEMENT
       [error_at AGREEMENT "number" 3 8; error_at AGREEMENT "gender" 0 2])
    (rule_reporting STRUCTURE []).

(** A checker to which a word-order rule was added that files its finding on
    an adverb under the adverb category. *)
Definition checker_foreign_category : FrenchGrammarRules :=
  add_rule
    (__init__ (parser_always doc_no_violation)
       (rule_reporting ADVERB [])
       (rule_reporting CONJUGATION [error_at CONJUGATION "ending" 3 8])
       (rule_reporting AGREEMENT [])
       (rule_reporting STRUCTURE []))
    (a_rule (rule_reporting STRUCTURE [error_at ADVERB "word order" 3 8])).

(** A checker whose agreement rule raises. *)
Definition checker_failing_rule : FrenchGrammarRules :=
  __init__ (parser_always doc_no_violation)
    (rule_reporting ADVERB [error_at ADVERB "adverb" 3 8])
    (rule_reporting CONJUGATION [])
    (rule_raising AGREEMENT "no morphology")
    (rule_reporting STRUCTURE [error_at STRUCTURE "order" 0 2]).

(** An error on "petit" in "La petit fille". *)
Definition error_petit : GrammarError :=
  mkGrammarError AGREEMENT (u "gender") (u "petite") (u "La petit fille")
                 3 8 (u "La petit fille").

(** A text generator that is out of service. *)
Definition generator_raising : TextGenerator :=
  fun _ _ => Raised (Exception (u "model unavailable")).

(** A text generator that answers every prompt with the same sentence. *)
Definition generator_echo : TextGenerator :=
  fun _ _ => Returned [mkGeneration (Some (u "Je mange souvent."))].

Definition service_without_ai : grammar_checker.FrenchGrammarChecker :=
  grammar_checker.mkFrenchGrammarChecker
    checker_own_categories generator_raising (parser_always doc_no_violation).

(* ================================================================== *)
(** * The rest of the program *)
(* ================================================================== *)

(** ** Builtins *)

(** [d[k].append(x)] on a [defaultdict(list)]: a missing key starts from the
    empty list and goes last. *)
Definition dict_append {K V : Type} `{EqDecision K}
    (d : dict K (list V)) (k : K) (x : V) : dict K (list V) :=
  match dict_get d k with
  | Some l => dict_set d k (l ++ [x])
  | None => dict_set d k [x]
  end.

(** ** app/common/utils.py, the other functions *)

(** The dict [extract_sentence_components] stores for one token. *)
Record Component := mkComponent {
  comp_text : str;
  comp_lemma : str;
  comp_tag : str;
  comp_dep : str
}.

Definition component (token : Token) : Component :=
  {| comp_text := tok_text token;
     comp_lemma := lemma_ token;
     comp_tag := tag_ token;
     comp_dep := dep_ token |}.

(** The value of [category] when a token is appended. *)
Definition category_of (token : Token) : str :=
  if str_in (dep_ token) [u "nsubj"; u "nsubj:pass"] then u "Sujet"
  else if str_eqb (pos_ token) (u "AUX")
          && str_contains (tag_ token) (u "VerbForm=Fin")
  then u "Auxiliaire"
  else get_french_pos_tag (pos_ token).

Definition extract_sentence_components (doc : Doc)
  : dict str (list Component) :=
  foldl (fun components token =>
           dict_append components (category_of token) (component token))
        [] doc.

(** ** app/cors/grammar_checker.py, [to_dict] *)

(** One element of the ["errors"] list of [to_dict]. *)
Record ErrorEntry := mkErrorEntry {
  entry_type : str;
  entry_message : str;
  entry_suggestion : str;
  entry_context : str;
  entry_start_pos : Z;
  entry_end_pos : Z
}.

(** The dict [to_dict] returns. *)
Record ResultDict := mkResultDict {
  d_text : str;
  d_error_count : Z;
  d_errors : list ErrorEntry;
  d_structure : list TokenInfo;
  d_ai_suggestions : list str;
  d_stats : grammar_checker.Stats
}.

Definition error_entry (error : GrammarError) : ErrorEntry :=
  {| entry_type := french_label (rule_type error);
     entry_message := message error;
     entry_suggestion := suggestion error;
     entry_context := (highlighted error).1;
     entry_start_pos := start_pos error;
     entry_end_pos := end_pos error |}.

Definition to_dict (self : grammar_checker.GrammarCheckResult) : ResultDict :=
  {| d_text := grammar_checker.original_text self;
     d_error_count := Z.of_nat (length (grammar_checker.errors self));
     d_errors := map error_entry (grammar_checker.errors self);
     d_structure := grammar_checker.structure self;
     d_ai_suggestions := grammar_checker.ai_suggestions self;
     d_stats := grammar_checker.stats self |}.

(** ** app/cors/grammar_checker.py, [batch_check] *)

(** A list comprehension over calls that have effects: the calls are made
    in order and the first one that raises ends the whole comprehension. *)
Fixpoint for_each {A B : Type} (f : A -> M B) (xs : list A) : M (list B) :=
  match xs with
  | [] => ret []
  | x :: rest =>
    do y <- f x ;;
    do ys <- for_each f rest ;;
    ret (y :: ys)
  end.

(** [list(pipeline.pipe(texts))]: the texts are parsed one after the
    other. *)
Definition pipe (pipeline : Pipeline) (texts : list str) : M (list Doc) :=
  for_each (call_pipeline pipeline) texts.

(** [batch_check].  The [text] of a spaCy document is the text it was parsed
    from, so [doc.text for doc in docs] runs over the input texts. *)
Definition batch_check (utils_nlp : Pipeline)
    (self : grammar_checker.FrenchGrammarChecker) (texts : list str)
  : M (list grammar_checker.GrammarCheckResult) :=
  do docs <- pipe (grammar_checker._nlp self) texts ;;
  for_each (grammar_checker.check utils_nlp self) texts.

(** ** app/cors/rules/__init__.py: the registry of the [rules] package *)

Module cors_rules.

Inductive RuleType :=
  | ADVERB | CONJUGATION | AGREEMENT | STRUCTURE | PUNCTUATION.

#[global] Instance RuleType_eq_dec : EqDecision RuleType.
Proof. solve_decision. Defined.

(** The value of each member. *)
Definition RuleType_value (t : RuleType) : str :=
  match t with
  | ADVERB => u "adverb_placement"
  | CONJUGATION => u "verb_conjugation"
  | AGREEMENT => u "grammatical_agreement"
  | STRUCTURE => u "sentence_structure"
  | PUNCTUATION => u "punctuation"
  end.

Record GrammarError := mkGrammarError {
  rule_type : RuleType;
  message : str;
  suggestion : str;
  context : str;
  start_pos : Z;
  end_pos : Z
}.

(** A rule instance: an object with an [apply] method. *)
Definition Rule := Doc -> Outcome (list GrammarError).

Record FrenchGrammarRules := mkFrenchGrammarRules {
  nlp : Pipeline;
  rules : dict RuleType Rule
}.

(** [FrenchGrammarRules()], given the loaded pipeline and the four rule
    objects. *)
Definition __init__ (loaded : Pipeline)
    (AdverbRules ConjugationRules AgreementRules SentenceStructureRules : Rule)
  : FrenchGrammarRules :=
  {| nlp := loaded;
     rules := [ (ADVERB, AdverbRules);
                (CONJUGATION, ConjugationRules);
                (AGREEMENT, AgreementRules);
                (STRUCTURE, SentenceStructureRules) ] |}.

(** [for rule_type, rule_instance in self.rules.items():
       errors.extend(rule_instance.apply(doc))] *)
Fixpoint for_each_rule (items : list (RuleType * Rule)) (doc : Doc)
    (errors : list GrammarError) : M (list GrammarError) :=
  match items with
  | [] => ret errors
  | (_, rule_instance) :: rest =>
    match rule_instance doc with
    | Returned produced => for_each_rule rest doc (errors ++ produced)
    | Raised e => raise e
    end
  end.

Definition check_sentence (self : FrenchGrammarRules) (sentence : str)
  : M (list GrammarError) :=
  do doc <- call_pipeline (nlp self) sentence ;;
  do errors <- for_each_rule (rules self) doc [] ;;
  ret errors.

Definition get_rule (self : FrenchGrammarRules) (rule_type : RuleType)
  : option Rule :=
  dict_get (rules self) rule_type.

End cors_rules.

(** ** app/cors/__init__.py, [check] over any registered object *)

(** [add_rule] registers every object that has an [apply] and a
    [rule_type]: [isinstance] against a runtime-checkable protocol looks at
    the names of the members and at nothing else.  What [apply] returns is
    up to the object, and [check] only iterates over it.  An iteration hands
    out errors one by one and then either ends or raises: a list ends, a
    call that raises hands out nothing, and a generator may raise after it
    has handed out some errors. *)

(** What is raised: an instance of [Exception], or an instance of a class
    that derives from [BaseException] alone ([KeyboardInterrupt],
    [SystemExit], [GeneratorExit]), given by the name of the class. *)
Inductive Raisable :=
  | an_Exception (e : exn)
  | a_BaseException (name : str).

(** [for error in rule.apply(doc)], as the loop sees it: the errors handed
    out, in order, and what stopped the iteration when it did not end. *)
Record Iteration := mkIteration {
  yielded : list GrammarError;
  stopped_by : option Raisable
}.

Record RuleObject := mkRuleObject {
  object_rule_type : RuleType;
  object_apply : Doc -> Iteration
}.

(** How a call leaves: with a value, or with something raised. *)
Inductive Completion (A : Type) :=
  | Normal (a : A)
  | Abrupt (r : Raisable).
Arguments Normal {A} a.
Arguments Abrupt {A} r.

(** One turn of the outer loop of [check].  Each error is appended as soon
    as it is handed out, inside the [try]; the handler prints one line and
    takes nothing back, so what was appended before the exception stays in
    [errors].  [except Exception] lets every other exception through, and
    with it the call of [check] ends. *)
Definition apply_in_try (doc : Doc) (text : str) (rule : RuleObject)
    (errors : list GrammarError) (w : World)
  : Completion (list GrammarError) * World :=
  let iteration := object_apply rule doc in
  let errors' := attach_all text (yielded iteration) errors in
  match stopped_by iteration with
  | None => (Normal errors', w)
  | Some (an_Exception e) =>
    (Normal errors',
     (print (u "Error applying " ++ RuleType_str (object_rule_type rule)
             ++ u " rules: " ++ exn_str e) w).2)
  | Some (a_BaseException name) => (Abrupt (a_BaseException name), w)
  end.

(** [for rule in self._rules.values(): ...] *)
Fixpoint for_each_object (rules : list RuleObject) (doc : Doc) (text : str)
    (errors : list GrammarError) (w : World)
  : Completion (list GrammarError) * World :=
  match rules with
  | [] => (Normal errors, w)
  | rule :: rest =>
    match apply_in_try doc text rule errors w with
    | (Normal errors', w') => for_each_object rest doc text errors' w'
    | (Abrupt r, w') => (Abrupt r, w')
    end
  end.

(** [check], given [self.nlp] and [self._rules]. *)
Definition check_objects (nlp : Pipeline) (_rules : dict RuleType RuleObject)
    (text : str) (w : World) : Completion (list GrammarError) * World :=
  match call_pipeline nlp text w with
  | (Raised e, w') => (Abrupt (an_Exception e), w')
  | (Returned doc, w') =>
    match for_each_object (dict_values _rules) doc text [] w' with
    | (Normal errors, w'') => (Normal (sorted start_pos errors), w'')
    | (Abrupt r, w'') => (Abrupt r, w'')
    end
  end.

(** [add_rule] on such a registry. *)
Definition add_object (_rules : dict RuleType RuleObject) (rule : RuleObject)
  : dict RuleType RuleObject :=
  dict_set _rules (object_rule_type rule) rule.

(** The rules of [rules.GrammarRule] are the objects whose [apply] returns a
    list or raises before it returns. *)
Definition iteration_of (o : Outcome (list GrammarError)) : Iteration :=
  match o with
  | Returned produced => mkIteration produced None
  | Raised e => mkIteration [] (Some (an_Exception e))
  end.

Definition as_object (rule : GrammarRule) : RuleObject :=
  {| object_rule_type := rule_type_of rule;
     object_apply := fun doc => iteration_of (rule_apply rule doc) |}.

Definition completion_of {A} (o : Outcome A) : Completion A :=
  match o with
  | Returned a => Normal a
  | Raised e => Abrupt (an_Exception e)
  end.

(** ** Vocabulary of the further properties *)

(** The call raised. *)
Definition raises {A} (o : Outcome A) : bool :=
  match o with
  | Returned _ => false
  | Raised _ => true
  end.

(** The number of errors of one category in a list. *)
Definition count_of (t : RuleType) (errors : list GrammarError) : Z :=
  Z.of_nat (length (filter (fun e => rule_type e = t) errors)).

(** An error with other offsets. *)
Definition with_offsets (e : GrammarError) (a b : Z) : GrammarError :=
  {| rule_type := rule_type e;
     message := message e;
     suggestion := suggestion e;
     context := context e;
     start_pos := a;
     end_pos := b;
     source_text := source_text e |}.

Definition is_subject (t : Token) : Prop :=
  dep_ t ∈ [u "nsubj"; u "nsubj:pass"].

(** The verb phrase the compound-tense test looks at: the head and the
    verbs among its right children. *)
Definition verb_phrase_of (doc : Doc) (head : Token) : list Token :=
  [head] ++ filter (fun t => pos_ t = u "VERB") (rights doc head).

(** The errors one object hands out, as [check] stores them. *)
Definition handed_out (doc : Doc) (text : str) (rule : RuleObject)
  : list GrammarError :=
  map (fun e => set_source_text e text) (yielded (object_apply rule doc)).

(** The lines printed for the objects that an [Exception] stops. *)
Definition lines_for (rules : list RuleObject) (doc : Doc) : list str :=
  concat (map (fun rule =>
                 match stopped_by (object_apply rule doc) with
                 | Some (an_Exception e) =>
                   [u "Error applying " ++ RuleType_str (object_rule_type rule)
                    ++ u " rules: " ++ exn_str e]
                 | _ => []
                 end) rules).

(** On this document the object ends, or is stopped by an [Exception]. *)
Definition caught (doc : Doc) (rule : RuleObject) : Prop :=
  forall name, stopped_by (object_apply rule doc) <> Some (a_BaseException name).

(** ** Adverb placement, test by test *)

(** The first test: the head is a verb that has a subject among its left
    children. *)
Definition splits_subject_and_verb (doc : Doc) (token : Token) : Prop :=
  pos_ (head_of doc token) = u "VERB"
  /\ exists t, t ∈ lefts doc (head_of doc token) /\ is_subject t.

(** The second test: the head is an auxiliary that stands before the token,
    and it forms the compound tense [tense] with the verbs among its right
    children. *)
Definition follows_auxiliary (doc : Doc) (token : Token) (tense : str)
  : Prop :=
  pos_ (head_of doc token) = u "AUX"
  /\ (tok_i (head_of doc token) < tok_i token)%nat
  /\ detect_compound_tenses (verb_phrase_of doc (head_of doc token))
     = Some tense.

(** An adverb that one of the two tests rejects. *)
Definition rejected_adverb (doc : Doc) (token : Token) : Prop :=
  pos_ token = u "ADV"
  /\ (splits_subject_and_verb doc token
      \/ exists tense, follows_auxiliary doc token tense).

(** The two messages; each quotes the text of the adverb. *)
Definition separation_message (token : Token) : str :=
  u "Adverbe '" ++ tok_text token
  ++ u "' mal placé. En français, l'adverbe ne doit généralement pas séparer le sujet et le verbe.".

Definition compound_tense_message (tense : str) (token head : Token) : str :=
  u "Dans le " ++ tense ++ u ", l'adverbe '" ++ tok_text token
  ++ u "' devrait normalement se placer après l'auxiliaire '"
  ++ tok_text head ++ u "'.".

(** The message that goes with a rejected adverb. *)
Definition message_for (doc : Doc) (token : Token) (msg : str) : Prop :=
  (splits_subject_and_verb doc token /\ msg = separation_message token)
  \/ (exists tense,
        follows_auxiliary doc token tense
        /\ msg = compound_tense_message tense token (head_of doc token)).

(** ** Further worked inputs *)

(** "Je mange rapidement", the adverb attached to the verb it follows. *)
Definition doc_adverb_after_verb : Doc :=
  [ tok "Je" "je" "PRON" "Number=Sing|Person=1" "nsubj" 0 1;
    tok "mange" "manger" "VERB" "Mood=Ind|Tense=Pres|VerbForm=Fin" "ROOT" 1 1;
    tok "rapidement" "rapidement" "ADV" "" "advmod" 2 1 ].

(** "Je mange ." with its full stop. *)
Definition doc_with_full_stop : Doc :=
  [ tok "Je" "je" "PRON" "Number=Sing|Person=1" "nsubj" 0 1;
    tok "mange" "manger" "VERB" "Mood=Ind|Tense=Pres|VerbForm=Fin" "ROOT" 1 1;
    mkToken (u ".") (u ".") (u "PUNCT") (u "") (u "punct") 2 1 true false ].

(** A pipeline that always raises. *)
Definition parser_raising (msg : string) : Pipeline :=
  fun _ _ => Raised (Exception (u msg)).

Definition service_with_ai : grammar_checker.FrenchGrammarChecker :=
  grammar_checker.mkFrenchGrammarChecker
    checker_own_categories generator_echo (parser_always doc_no_violation).

(** A registry of the [rules] package whose second rule raises. *)
Definition package_failing_rule : cors_rules.FrenchGrammarRules :=
  cors_rules.__init__ (parser_always doc_no_violation)
    (fun _ => Returned [cors_rules.mkGrammarError cors_rules.ADVERB
                          (u "adverb") (u "") (u "") 3 8])
    (fun _ => Raised (Exception (u "no paradigm")))
    (fun _ => Returned [])
    (fun _ => Returned []).

(** An agreement rule written as a generator: it hands out one error and
    then fails. *)
Definition rule_failing_part_way : RuleObject :=
  mkRuleObject AGREEMENT
    (fun _ => mkIteration [error_at AGREEMENT "number" 3 8]
                          (Some (an_Exception (Exception (u "no morphology"))))).

(** A structure rule during which the user presses Ctrl-C. *)
Definition rule_interrupted : RuleObject :=
  mkRuleObject STRUCTURE
    (fun _ => mkIteration [] (Some (a_BaseException (u "KeyboardInterrupt")))).

(** The four built-in rules, as objects. *)
Definition registry_built_in : dict RuleType RuleObject :=
  [ (ADVERB, as_object (rule_reporting ADVERB [error_at ADVERB "adverb" 3 8]));
    (CONJUGATION, as_object (rule_reporting CONJUGATION []));
    (AGREEMENT, as_object (rule_reporting AGREEMENT []));
    (STRUCTURE,
     as_object (rule_reporting STRUCTURE [error_at STRUCTURE "order" 0 2])) ].

(** The registry after [add_rule] was given the generator. *)
Definition registry_failing_part_way : dict RuleType RuleObject :=
  add_object registry_built_in rule_failing_part_way.

(** The registry after [add_rule] was given the interrupted rule. *)
Definition registry_interrupted : dict RuleType RuleObject :=
  add_object registry_built_in rule_interrupted.

(* ================================================================== *)
(** * Tactics *)
(* ================================================================== *)

Ltac refute :=
  first
    [ contradiction
    | match goal with
      | H : _ \/ _ |- _ => destruct H; [discriminate | contradiction]
      end
    | tauto ].

Ltac conjuncts :=
  repeat match goal with |- _ /\ _ => split end;
  first [reflexivity | assumption].

(* ================================================================== *)
(** * Properties: strings *)
(* ================================================================== *)

Lemma lstrip_nil (s : str) : lstrip s = [] <-> all_whitespace s.
Proof.
  unfold all_whitespace. induction s as [|c r IH]; simpl.
  - split; [constructor | reflexivity].
  - destruct (isspace c) eqn:Hc.
    + rewrite IH. split.
      * intros H. constructor; assumption.
      * intros H. inversion H; assumption.
    + split; [discriminate |].
      intros H. inversion H; congruence.
Qed.

Lemma lstrip_keeps_nonspace (s : str) :
  lstrip s = [] \/ exists c r, lstrip s = c :: r /\ isspace c = false.
Proof.
  induction s as [|c r IH]; simpl; [left; reflexivity |].
  destruct (isspace c) eqn:Hc; [exact IH |].
  right. exists c, r. split; [reflexivity | exact Hc].
Qed.

Lemma strip_nil (s : str) : strip s = [] <-> all_whitespace s.
Proof.
  unfold strip, rstrip. split.
  - intros H. apply lstrip_nil.
    assert (Hrev : lstrip (reverse (lstrip s)) = []).
    { apply (f_equal reverse) in H. rewrite reverse_involutive in H.
      exact H. }
    apply lstrip_nil in Hrev. unfold all_whitespace in Hrev.
    rewrite Forall_reverse in Hrev.
    destruct (lstrip_keeps_nonspace s) as [E | (c & r & E & Hc)];
      [exact E |].
    rewrite E in Hrev. inversion Hrev; congruence.
  - intros H. apply lstrip_nil in H. rewrite H. reflexivity.
Qed.

Lemma slice_prefix (s : str) (b : Z) :
  0 <= b <= len s -> slice s None (Some b) = take (Z.to_nat b) s.
Proof.
  intros Hb. unfold slice, slice_bound.
  destruct (Z.ltb_spec b 0); [lia |].
  rewrite Z.min_l by lia. reflexivity.
Qed.

Lemma slice_suffix (s : str) (a : Z) :
  0 <= a <= len s -> slice s (Some a) None = drop (Z.to_nat a) s.
Proof.
  intros Ha. unfold slice, slice_bound.
  destruct (Z.ltb_spec a 0); [lia |].
  rewrite Z.min_l by lia. rewrite firstn_all. reflexivity.
Qed.

Lemma slice_middle (s : str) (a b : Z) :
  0 <= a <= b -> b <= len s ->
  slice s (Some a) (Some b)
  = take (Z.to_nat b - Z.to_nat a) (drop (Z.to_nat a) s).
Proof.
  intros Ha Hb. unfold slice, slice_bound.
  destruct (Z.ltb_spec a 0); [lia |].
  destruct (Z.ltb_spec b 0); [lia |].
  rewrite !Z.min_l by lia. rewrite take_drop_commute.
  f_equal. f_equal. lia.
Qed.

(** C7. For an error whose offsets satisfy
    [0 <= start_pos <= end_pos <= len(source_text)], the source text splits
    as before ++ span ++ after with [len(before) = start_pos] and
    [len(span) = end_pos - start_pos], the highlighted view is
    before ++ ">>>" ++ span ++ "<<<" ++ after, and the error object is the
    same after the property was read: nothing is written to it. *)
Theorem highlighted_marks_the_span (e : GrammarError) :
  0 <= start_pos e -> start_pos e <= end_pos e ->
  end_pos e <= len (source_text e) ->
  exists before span after,
    source_text e = before ++ span ++ after
    /\ len before = start_pos e
    /\ len span = end_pos e - start_pos e
    /\ span = slice (source_text e) (Some (start_pos e)) (Some (end_pos e))
    /\ highlighted e
       = (before ++ u ">>>" ++ span ++ u "<<<" ++ after, e).
Proof.
  intros H0 H1 H2.
  set (s := source_text e) in *.
  set (a := Z.to_nat (start_pos e)).
  set (b := Z.to_nat (end_pos e)).
  assert (Hlen : len s = Z.of_nat (length s)) by reflexivity.
  exists (take a s), (take (b - a) (drop a s)), (drop b s).
  assert (Hmid : slice s (Some (start_pos e)) (Some (end_pos e))
                 = take (b - a) (drop a s)).
  { apply slice_middle; lia. }
  repeat split.
  - rewrite <- (take_drop a s) at 1. f_equal.
    rewrite <- (take_drop (b - a) (drop a s)) at 1. f_equal.
    rewrite drop_drop. f_equal. lia.
  - unfold len. rewrite length_take. lia.
  - unfold len. rewrite length_take, length_drop. lia.
  - symmetry. exact Hmid.
  - unfold highlighted. fold s.
    rewrite slice_prefix, slice_suffix, Hmid by lia. reflexivity.
Qed.

Lemma highlighted_marks_the_span_witness :
  exists before span after,
    source_text error_petit = before ++ span ++ after
    /\ len before = 3
    /\ len span = 5
    /\ span = slice (source_text error_petit) (Some 3) (Some 8)
    /\ highlighted error_petit
       = (before ++ u ">>>" ++ span ++ u "<<<" ++ after, error_petit).
Proof.
  apply (highlighted_marks_the_span error_petit); vm_compute; congruence.
Defined.

Example highlighted_petit :
  (highlighted error_petit).1 = u "La >>>petit<<< fille".
Proof. vm_compute. reflexivity. Qed.

(* ================================================================== *)
(** * Properties: [sorted] *)
(* ================================================================== *)

Lemma StronglySorted_weaken {A} (R R' : A -> A -> Prop) (l : list A) :
  (forall a b, R a b -> R' a b) ->
  StronglySorted R l -> StronglySorted R' l.
Proof.
  intros HR. induction 1 as [|x l Hl IH Hx]; constructor; [exact IH |].
  eapply Forall_impl; [exact Hx | apply HR].
Qed.

Section SortedFacts.
Context {A : Type} (key : A -> Z).

Lemma insert_by_key_Permutation (x : A) (l : list A) :
  insert_by_key key x l ≡ₚ x :: l.
Proof.
  induction l as [|y r IH]; simpl; [reflexivity |].
  destruct (key x <=? key y); [reflexivity |].
  rewrite IH. apply Permutation_swap.
Qed.

Lemma sorted_Permutation (l : list A) : sorted key l ≡ₚ l.
Proof.
  induction l as [|x r IH]; simpl; [reflexivity |].
  rewrite insert_by_key_Permutation, IH. reflexivity.
Qed.

Lemma elem_of_sorted (x : A) (l : list A) : x ∈ sorted key l <-> x ∈ l.
Proof. rewrite sorted_Permutation. reflexivity. Qed.

(** Moving [x] past [y] only happens when their keys differ, so the
    elements of any one key are never reordered. *)
Lemma insert_by_key_stable (k : Z) (x : A) (l : list A) :
  filter (fun y => key y = k) (insert_by_key key x l)
  = filter (fun y => key y = k) (x :: l).
Proof.
  induction l as [|y r IH]; simpl; [reflexivity |].
  destruct (Z.leb_spec (key x) (key y)) as [Hle | Hgt]; [reflexivity |].
  rewrite (filter_cons _ y), IH, !(filter_cons _ x), (filter_cons _ y).
  repeat case_decide; try reflexivity; lia.
Qed.

Lemma sorted_stable (k : Z) (l : list A) :
  filter (fun y => key y = k) (sorted key l)
  = filter (fun y => key y = k) l.
Proof.
  induction l as [|x r IH]; simpl; [reflexivity |].
  rewrite insert_by_key_stable, !(filter_cons _ x), IH. reflexivity.
Qed.

(** Ordering by [key], refined by a second key that the input already
    respects. *)
Section Refined.
Context (key2 : A -> Z).

Let refined (a b : A) : Prop :=
  key a < key b \/ (key a = key b /\ key2 a <= key2 b).

Lemma insert_by_key_refined (x : A) (l : list A) :
  StronglySorted refined l ->
  Forall (fun y => key2 x <= key2 y) l ->
  StronglySorted refined (insert_by_key key x l).
Proof.
  induction l as [|y r IH]; simpl; intros Hs Hx.
  - repeat constructor.
  - apply StronglySorted_cons in Hs as [Hy Hr].
    apply Forall_cons in Hx as [Hxy Hxr].
    destruct (Z.leb_spec (key x) (key y)) as [Hle | Hgt].
    + apply StronglySorted_cons. split.
      * constructor; [unfold refined; lia |].
        rewrite Forall_forall in Hy, Hxr |- *.
        intros z Hz. specialize (Hy z Hz). specialize (Hxr z Hz).
        unfold refined in *. lia.
      * apply StronglySorted_cons. split; assumption.
    + apply StronglySorted_cons. split; [| apply IH; assumption].
      rewrite insert_by_key_Permutation.
      constructor; [unfold refined; lia | assumption].
Qed.

Lemma sorted_refined (l : list A) :
  StronglySorted (fun a b => key2 a <= key2 b) l ->
  StronglySorted refined (sorted key l).
Proof.
  induction l as [|x r IH]; simpl; intros Hs; [constructor |].
  apply StronglySorted_cons in Hs as [Hx Hr].
  apply insert_by_key_refined; [apply IH; assumption |].
  rewrite sorted_Permutation. exact Hx.
Qed.
End Refined.

Lemma sorted_by_key (l : list A) :
  StronglySorted (fun a b => key a <= key b) (sorted key l).
Proof.
  assert (H : StronglySorted (fun a b : A => 0 <= 0) l).
  { induction l; constructor; [assumption |].
    apply Forall_forall. intros; lia. }
  apply (sorted_refined (fun _ => 0)) in H.
  eapply StronglySorted_weaken; [| exact H].
  simpl. intros a b. lia.
Qed.
End SortedFacts.

(* ================================================================== *)
(** * Properties: the registry *)
(* ================================================================== *)

Section DictFacts.
Context {K V : Type} `{EqDecision K}.
Implicit Types (d : dict K V) (k : K) (v : V).

Lemma dict_get_set_same d k v : dict_get (dict_set d k v) k = Some v.
Proof.
  induction d as [|[k' v'] r IH]; simpl.
  - rewrite decide_True by reflexivity. reflexivity.
  - destruct (decide (k' = k)) as [-> | Hne]; simpl.
    + rewrite decide_True by reflexivity. reflexivity.
    + rewrite decide_False by assumption. exact IH.
Qed.

Lemma dict_get_set_other d k k' v :
  k' <> k -> dict_get (dict_set d k v) k' = dict_get d k'.
Proof.
  intros Hne. induction d as [|[k0 v0] r IH]; simpl.
  - rewrite decide_False by congruence. reflexivity.
  - destruct (decide (k0 = k)) as [-> | Hk0]; simpl.
    + rewrite !decide_False by congruence. reflexivity.
    + rewrite IH. reflexivity.
Qed.

Lemma dict_get_keys d k : dict_get d k <> None <-> k ∈ dict_keys d.
Proof.
  unfold dict_keys. induction d as [|[k' v'] r IH]; simpl.
  - rewrite elem_of_nil. tauto.
  - rewrite elem_of_cons. destruct (decide (k' = k)) as [-> | Hne].
    + split; [auto | discriminate].
    + rewrite IH. split; [auto | intros [? | ?]; [congruence | assumption]].
Qed.

Lemma dict_set_keys d k v :
  dict_keys (dict_set d k v)
  = if decide (k ∈ dict_keys d) then dict_keys d else dict_keys d ++ [k].
Proof.
  unfold dict_keys. induction d as [|[k' v'] r IH].
  - destruct (decide (k ∈ ([] : dict K V).*1)) as [Hin | _];
      [| reflexivity].
    apply elem_of_nil in Hin. contradiction.
  - cbn [dict_set]. destruct (decide (k' = k)) as [-> | Hne].
    + destruct (decide (k ∈ ((k, v') :: r).*1)) as [_ | Hout];
        [reflexivity |].
      exfalso. apply Hout. apply list_elem_of_here.
    + rewrite fmap_cons, IH. cbn [fst].
      destruct (decide (k ∈ r.*1)) as [Hin | Hout];
        destruct (decide (k ∈ ((k', v') :: r).*1)) as [Hin' | Hout'];
        try reflexivity.
      * exfalso. apply Hout'. apply list_elem_of_further. exact Hin.
      * exfalso. rewrite fmap_cons in Hin'. cbn [fst] in Hin'.
        apply elem_of_cons in Hin' as [? | ?]; [congruence | auto].
Qed.
End DictFacts.

(** C8. Registering a rule whose type is already in the registry makes
    [get_rule] return the new rule for that type, leaves [get_rule]
    unchanged for every other type, and keeps the iteration order of the
    registry. *)
Theorem add_rule_replaces (self : FrenchGrammarRules) (rule : GrammarRule) :
  get_rule self (rule_type_of rule) <> None ->
  get_rule (add_rule self (a_rule rule)) (rule_type_of rule) = Some rule
  /\ (forall other, other <> rule_type_of rule ->
        get_rule (add_rule self (a_rule rule)) other = get_rule self other)
  /\ dict_keys (_rules (add_rule self (a_rule rule)))
     = dict_keys (_rules self).
Proof.
  intros Hpresent. unfold get_rule, add_rule in *. simpl. repeat split.
  - apply dict_get_set_same.
  - intros other Hne. apply dict_get_set_other. exact Hne.
  - rewrite dict_set_keys. apply dict_get_keys in Hpresent.
    rewrite decide_True by exact Hpresent. reflexivity.
Qed.

Lemma add_rule_replaces_witness :
  get_rule checker_own_categories AGREEMENT <> None
  /\ get_rule (add_rule checker_own_categories
                 (a_rule (rule_raising AGREEMENT "no morphology")))
              AGREEMENT
     = Some (rule_raising AGREEMENT "no morphology").
Proof.
  split; [vm_compute; discriminate |].
  apply (add_rule_replaces checker_own_categories
           (rule_raising AGREEMENT "no morphology")).
  vm_compute. discriminate.
Defined.

(** The keys of a registry the program can build follow the enum order. *)
Lemma constructed_keys (self : FrenchGrammarRules) :
  constructed self ->
  dict_keys (_rules self) = [ADVERB; CONJUGATION; AGREEMENT; STRUCTURE]
  \/ dict_keys (_rules self)
     = [ADVERB; CONJUGATION; AGREEMENT; STRUCTURE; PUNCTUATION].
Proof.
  induction 1 as [| self obj Hself IH]; [left; reflexivity |].
  destruct obj as [rule |]; [| exact IH]. simpl.
  rewrite dict_set_keys.
  destruct IH as [-> | ->]; destruct (rule_type_of rule);
    vm_compute; auto.
Qed.

Lemma constructed_keys_sorted (self : FrenchGrammarRules) :
  constructed self ->
  StronglySorted (fun a b => RuleType_value a <= RuleType_value b)
                 (dict_keys (_rules self)).
Proof.
  intros H. destruct (constructed_keys self H) as [-> | ->];
    repeat (constructor; [| repeat constructor; simpl; lia]); constructor.
Qed.

(* ================================================================== *)
(** * Properties: the orchestrator *)
(* ================================================================== *)

Lemma after_print_nil (w : World) : after_print w [] = w.
Proof. destruct w. unfold after_print. simpl. rewrite app_nil_r. reflexivity. Qed.

Lemma after_print_app (w : World) (l1 l2 : list str) :
  after_print (after_print w l1) l2 = after_print w (l1 ++ l2).
Proof. unfold after_print. simpl. rewrite app_assoc. reflexivity. Qed.

Lemma attach_all_eq (text : str) (produced errors : list GrammarError) :
  attach_all text produced errors
  = errors ++ map (fun e => set_source_text e text) produced.
Proof.
  unfold attach_all. revert errors.
  induction produced as [|e r IH]; intros errors; simpl.
  - rewrite app_nil_r. reflexivity.
  - rewrite IH, <- app_assoc. reflexivity.
Qed.

Lemma apply_guarded_eq doc text rule errors w :
  apply_guarded doc text rule errors w
  = (Returned (errors ++ contribution doc text rule),
     after_print w (failure_lines [rule] doc)).
Proof.
  unfold apply_guarded, try_except, contribution, failure_lines. simpl.
  destruct (rule_apply rule doc) as [produced | e]; simpl.
  - rewrite attach_all_eq, after_print_nil. reflexivity.
  - unfold bind, print, ret, after_print. simpl.
    rewrite !app_nil_r. reflexivity.
Qed.

Lemma for_each_rule_eq rules doc text errors w :
  for_each_rule rules doc text errors w
  = (Returned (errors ++ collected rules doc text),
     after_print w (failure_lines rules doc)).
Proof.
  revert errors w. induction rules as [|rule rest IH]; intros errors w.
  - simpl. unfold ret, collected, failure_lines. simpl.
    rewrite app_nil_r, after_print_nil. reflexivity.
  - simpl. unfold bind. rewrite apply_guarded_eq, IH.
    rewrite after_print_app, <- app_assoc.
    unfold collected, failure_lines. simpl. rewrite app_nil_r. reflexivity.
Qed.

Lemma check_eq (self : FrenchGrammarRules) (text : str) (w : World) :
  rules.check self text w
  = match nlp self (parser_calls w) text with
    | Returned doc =>
      (Returned (sorted start_pos
                   (collected (dict_values (_rules self)) doc text)),
       after_print (after_parse w text)
                   (failure_lines (dict_values (_rules self)) doc))
    | Raised e => (Raised e, after_parse w text)
    end.
Proof.
  unfold rules.check, bind, call_pipeline. fold (after_parse w text).
  destruct (nlp self (parser_calls w) text) as [doc | e]; [| reflexivity].
  rewrite for_each_rule_eq. reflexivity.
Qed.

Lemma check_returned self text w errs w' :
  rules.check self text w = (Returned errs, w') ->
  exists doc,
    nlp self (parser_calls w) text = Returned doc
    /\ errs = sorted start_pos
                (collected (dict_values (_rules self)) doc text).
Proof.
  rewrite check_eq.
  destruct (nlp self (parser_calls w) text) as [doc | e]; [| discriminate].
  intros [= <- _]. exists doc. split; reflexivity.
Qed.

Lemma collected_app rules1 rules2 doc text :
  collected (rules1 ++ rules2) doc text
  = collected rules1 doc text ++ collected rules2 doc text.
Proof. unfold collected. rewrite map_app, concat_app. reflexivity. Qed.

Lemma elem_of_collected e rules doc text :
  e ∈ collected rules doc text ->
  exists rule produced e0,
    rule ∈ rules /\ rule_apply rule doc = Returned produced
    /\ e0 ∈ produced /\ e = set_source_text e0 text.
Proof.
  induction rules as [|rule rest IH].
  - unfold collected. simpl. intros H. apply elem_of_nil in H. contradiction.
  - change (rule :: rest) with ([rule] ++ rest). rewrite collected_app.
    rewrite elem_of_app. intros [H | H].
    + unfold collected, contribution in H. simpl in H.
      rewrite app_nil_r in H.
      destruct (rule_apply rule doc) as [produced | ex] eqn:Happly.
      * apply list_elem_of_fmap in H as (e0 & -> & He0).
        exists rule, produced, e0. repeat split; try assumption.
        apply list_elem_of_here.
      * apply elem_of_nil in H. contradiction.
    + destruct (IH H) as (r & produced & e0 & Hr & Happly & He0 & ->).
      exists r, produced, e0. repeat split; try assumption.
      apply list_elem_of_further. exact Hr.
Qed.

Lemma elem_of_contribution e doc text rule :
  e ∈ contribution doc text rule ->
  exists produced e0,
    rule_apply rule doc = Returned produced
    /\ e0 ∈ produced /\ e = set_source_text e0 text.
Proof.
  unfold contribution.
  destruct (rule_apply rule doc) as [produced | ex]; intros H.
  - apply list_elem_of_fmap in H as (e0 & -> & He0).
    exists produced, e0. repeat split; assumption.
  - apply elem_of_nil in H. contradiction.
Qed.

Lemma StronglySorted_constant {A} (f : A -> Z) (c : Z) (l : list A) :
  Forall (fun a => f a = c) l ->
  StronglySorted (fun a b => f a <= f b) l.
Proof.
  induction 1 as [|x l Hx Hl IH]; constructor; [exact IH |].
  eapply Forall_impl; [exact Hl |]. simpl. intros; lia.
Qed.

(** When the keys of the registry follow the enum order and every rule
    reports under its key, the errors are collected in enum order. *)
Lemma collected_by_category (registry : dict RuleType GrammarRule) doc text :
  StronglySorted (fun a b => RuleType_value a <= RuleType_value b)
                 (dict_keys registry) ->
  (forall k rule produced e,
      (k, rule) ∈ registry -> rule_apply rule doc = Returned produced ->
      e ∈ produced -> rule_type e = k) ->
  StronglySorted
    (fun a b => RuleType_value (rule_type a) <= RuleType_value (rule_type b))
    (collected (dict_values registry) doc text).
Proof.
  induction registry as [|[k rule] rest IH]; intros Hkeys Hown.
  - constructor.
  - unfold dict_keys, dict_values in *. rewrite !fmap_cons in *. cbn [fst snd] in *.
    apply StronglySorted_cons in Hkeys as [Hk Hrest].
    change (rule :: rest.*2) with ([rule] ++ rest.*2).
    rewrite collected_app.
    assert (Hhere : forall e, e ∈ collected [rule] doc text -> rule_type e = k).
    { intros e He. unfold collected in He. simpl in He.
      rewrite app_nil_r in He.
      apply elem_of_contribution in He as (produced & e0 & Ha & He0 & ->).
      simpl. eapply Hown; [apply list_elem_of_here | exact Ha | exact He0]. }
    apply StronglySorted_app_2.
    + intros x1 x2 H1 H2. rewrite (Hhere x1 H1).
      apply elem_of_collected in H2
        as (rule2 & produced & e0 & Hr2 & Ha & He0 & ->).
      apply list_elem_of_fmap in Hr2 as ([k2 rule2'] & -> & Hin).
      simpl in Ha |- *.
      rewrite (Hown k2 rule2' produced e0
                 (list_elem_of_further _ _ _ Hin) Ha He0).
      rewrite Forall_forall in Hk. apply Hk.
      apply list_elem_of_fmap. exists (k2, rule2'). split; [reflexivity | exact Hin].
    + apply (StronglySorted_constant _ (RuleType_value k)).
      apply Forall_forall. intros e He. rewrite (Hhere e He). reflexivity.
    + apply IH; [exact Hrest |].
      intros k' rule' produced e Hin. apply Hown.
      apply list_elem_of_further. exact Hin.
Qed.

(** C1, as the code has it.  For every text that parses, the list returned
    by [check] holds the collected errors ordered by start offset ascending;
    the start offset is the only sort key, so errors with equal start
    offsets keep the order in which they were collected (registry iteration
    order, then each rule's own order).  When the registry was built by the
    constructor and [add_rule] and every rule reports only errors of the
    category it is registered under, that order is the enum order of the
    categories. *)
Theorem check_sorted_by_start (self : FrenchGrammarRules) (text : str)
    (w w' : World) (errs : list GrammarError) :
  rules.check self text w = (Returned errs, w') ->
  exists doc,
    nlp self (parser_calls w) text = Returned doc
    /\ StronglySorted by_start errs
    /\ errs ≡ₚ collected (dict_values (_rules self)) doc text
    /\ (forall k,
          starting_at k errs
          = starting_at k (collected (dict_values (_rules self)) doc text))
    /\ (constructed self -> emits_own_category self doc ->
        StronglySorted by_start_then_category errs).
Proof.
  intros Hcheck. apply check_returned in Hcheck as (doc & Hdoc & ->).
  exists doc. split; [exact Hdoc |]. repeat split.
  - apply sorted_by_key.
  - apply sorted_Permutation.
  - intros k. apply sorted_stable.
  - intros Hc Hown.
    apply (sorted_refined start_pos (fun e => RuleType_value (rule_type e))).
    apply collected_by_category.
    + apply constructed_keys_sorted. exact Hc.
    + exact Hown.
Qed.

Lemma checker_own_categories_reports_own :
  emits_own_category checker_own_categories doc_no_violation.
Proof.
  intros k rule produced e Hin Happly He.
  unfold checker_own_categories, __init__, _load_rules in Hin.
  cbn [_rules] in Hin.
  repeat (apply elem_of_cons in Hin as [Hin | Hin]);
    try (apply elem_of_nil in Hin; contradiction);
    injection Hin as -> ->; injection Happly as <-;
    repeat (apply elem_of_cons in He as [-> | He]);
    try (apply elem_of_nil in He; contradiction); reflexivity.
Qed.

Lemma check_sorted_by_start_witness :
  exists doc,
    nlp checker_own_categories (parser_calls world0) (u "Je mange rapidement")
    = Returned doc
    /\ StronglySorted by_start_then_category
         [ set_source_text (error_at AGREEMENT "gender" 0 2)
                           (u "Je mange rapidement");
           set_source_text (error_at ADVERB "adverb" 3 8)
                           (u "Je mange rapidement");
           set_source_text (error_at AGREEMENT "number" 3 8)
                           (u "Je mange rapidement") ].
Proof.
  destruct (check_sorted_by_start checker_own_categories
              (u "Je mange rapidement") world0
              (after_parse world0 (u "Je mange rapidement"))
              [ set_source_text (error_at AGREEMENT "gender" 0 2)
                                (u "Je mange rapidement");
                set_source_text (error_at ADVERB "adverb" 3 8)
                                (u "Je mange rapidement");
                set_source_text (error_at AGREEMENT "number" 3 8)
                                (u "Je mange rapidement") ])
    as (doc & Hdoc & _ & _ & _ & Hties).
  - vm_compute. reflexivity.
  - exists doc. split; [exact Hdoc |].
    injection Hdoc as <-. apply Hties.
    + apply constructed_init.
    + apply checker_own_categories_reports_own.
Defined.

(** C1, as stated, fails: a registered rule may report an error under
    another category than its own, and then two errors with the same start
    offset come out against the enum order. *)
Lemma check_ties_not_by_category :
  constructed checker_foreign_category
  /\ (rules.check checker_foreign_category (u "Je mange rapidement")
                  world0).1
     = Returned
         [ set_source_text (error_at CONJUGATION "ending" 3 8)
                           (u "Je mange rapidement");
           set_source_text (error_at ADVERB "word order" 3 8)
                           (u "Je mange rapidement") ]
  /\ ~ StronglySorted by_start_then_category
         [ set_source_text (error_at CONJUGATION "ending" 3 8)
                           (u "Je mange rapidement");
           set_source_text (error_at ADVERB "word order" 3 8)
                           (u "Je mange rapidement") ].
Proof.
  split; [| split].
  - unfold checker_foreign_category. apply constructed_add, constructed_init.
  - vm_compute. reflexivity.
  - intros H. apply StronglySorted_cons in H as [H _].
    apply Forall_cons in H as [[H | [_ H]] _]; vm_compute in H;
      [discriminate | apply H; reflexivity].
Qed.

(** The failure of the agreement rule is printed, and only there does it
    show. *)
Example failing_rule_is_logged :
  stdout (rules.check checker_failing_rule (u "Je mange rapidement")
            world0).2
  = [u "Error applying RuleType.AGREEMENT rules: no morphology"].
Proof. vm_compute. reflexivity. Qed.

(** C9. With a parser that answers by the text alone, a second [check] of
    the same text, run after the first, gives the same outcome as the
    first: the same errors in the same order. *)
Theorem check_twice_same_errors (self : FrenchGrammarRules) (text : str)
    (w : World) :
  deterministic (nlp self) ->
  (rules.check self text (rules.check self text w).2).1
  = (rules.check self text w).1.
Proof.
  intros Hdet. rewrite !check_eq.
  rewrite (Hdet _ (parser_calls w) text).
  destruct (nlp self (parser_calls w) text); reflexivity.
Qed.

Lemma check_twice_same_errors_witness :
  (rules.check checker_own_categories (u "Je mange rapidement")
     (rules.check checker_own_categories (u "Je mange rapidement")
                  world0).2).1
  = (rules.check checker_own_categories (u "Je mange rapidement") world0).1.
Proof.
  apply (check_twice_same_errors checker_own_categories
           (u "Je mange rapidement") world0).
  intros history history' text. reflexivity.
Defined.

(** C10. Every error returned by [check] carries the checked text as its
    [source_text]: it is an error produced by a registered rule whose
    [source_text], whatever the rule had put there, was replaced by the
    text given to [check]. *)
Theorem check_attaches_checked_text (self : FrenchGrammarRules) (text : str)
    (w w' : World) (errs : list GrammarError) :
  rules.check self text w = (Returned errs, w') ->
  forall e, e ∈ errs ->
    source_text e = text
    /\ exists doc rule produced e0,
         nlp self (parser_calls w) text = Returned doc
         /\ rule ∈ dict_values (_rules self)
         /\ rule_apply rule doc = Returned produced
         /\ e0 ∈ produced
         /\ e = set_source_text e0 text.
Proof.
  intros Hcheck e He.
  apply check_returned in Hcheck as (doc & Hdoc & ->).
  apply elem_of_sorted, elem_of_collected in He
    as (rule & produced & e0 & Hrule & Happly & He0 & ->).
  split; [reflexivity |].
  exists doc, rule, produced, e0. repeat split; assumption.
Qed.

Lemma check_attaches_checked_text_witness :
  source_text (set_source_text (error_at ADVERB "adverb" 3 8)
                               (u "Je mange rapidement"))
  = u "Je mange rapidement".
Proof.
  refine (proj1 (check_attaches_checked_text checker_own_categories
                   (u "Je mange rapidement") world0
                   (after_parse world0 (u "Je mange rapidement"))
                   [ set_source_text (error_at AGREEMENT "gender" 0 2)
                                     (u "Je mange rapidement");
                     set_source_text (error_at ADVERB "adverb" 3 8)
                                     (u "Je mange rapidement");
                     set_source_text (error_at AGREEMENT "number" 3 8)
                                     (u "Je mange rapidement") ]
                   _ _ _)).
  - vm_compute. reflexivity.
  - apply list_elem_of_further, list_elem_of_here.
Defined.

(* ================================================================== *)
(** * Properties: the result assembler *)
(* ================================================================== *)

Lemma check_whitespace (utils_nlp : Pipeline)
    (self : grammar_checker.FrenchGrammarChecker) (text : str) (w : World) :
  all_whitespace text ->
  grammar_checker.check utils_nlp self text w
  = (Returned (grammar_checker._empty_result text), w).
Proof.
  intros Hws. unfold grammar_checker.check.
  rewrite bool_decide_eq_true_2 by (apply strip_nil; exact Hws).
  reflexivity.
Qed.

(** Counting touches nothing outside: it reads the error list only. *)
Lemma count_by_type_pure errors by_type w :
  grammar_checker.count_by_type errors by_type w
  = ((grammar_checker.count_by_type errors by_type world0).1, w).
Proof.
  revert by_type w. induction errors as [|e r IH]; intros by_type w.
  - reflexivity.
  - simpl. unfold bind, grammar_checker.increment.
    destruct (by_type !! french_label (rule_type e)) as [count |];
      [| reflexivity].
    unfold ret. rewrite IH, (IH _ world0). reflexivity.
Qed.

Lemma generate_stats_pure errors w :
  grammar_checker._generate_stats errors w
  = ((grammar_checker._generate_stats errors world0).1, w).
Proof.
  unfold grammar_checker._generate_stats, bind.
  rewrite (count_by_type_pure errors _ w).
  destruct (grammar_checker.count_by_type errors _ world0) as [[a | e] w0];
    reflexivity.
Qed.

Lemma zero_stats_labels (t : RuleType) (w : World) :
  exists s,
    grammar_checker._generate_stats [] w = (Returned s, w)
    /\ grammar_checker.total_errors s = 0
    /\ grammar_checker.by_type s !! french_label t = Some 0.
Proof.
  eexists. split; [reflexivity |]. split; [reflexivity |].
  destruct t; vm_compute; reflexivity.
Qed.

(** C3 on the code.  For the whitespace-only text of three spaces, [check]
    returns at once, with the world as it found it (no parser call, no
    generator call), a result with no error, an empty structure list, no AI
    suggestion and a total of zero; but the per-category mapping of that
    result is empty, so none of the five labels is present in it, whereas
    [_generate_stats] on an empty error list has every label at zero. *)
Theorem empty_input_stats_lack_the_labels (utils_nlp : Pipeline)
    (self : grammar_checker.FrenchGrammarChecker) (w : World) :
  exists r,
    grammar_checker.check utils_nlp self (u "   ") w = (Returned r, w)
    /\ grammar_checker.errors r = []
    /\ grammar_checker.structure r = []
    /\ grammar_checker.ai_suggestions r = []
    /\ grammar_checker.total_errors (grammar_checker.stats r) = 0
    /\ (forall t,
          grammar_checker.by_type (grammar_checker.stats r) !! french_label t
          = None)
    /\ (forall t, exists s,
          grammar_checker._generate_stats [] w = (Returned s, w)
          /\ grammar_checker.by_type s !! french_label t = Some 0).
Proof.
  exists (grammar_checker._empty_result (u "   ")).
  split; [apply check_whitespace; repeat constructor |].
  do 4 (split; [reflexivity |]). split.
  - intros t. apply lookup_empty.
  - intros t. destruct (zero_stats_labels t w) as (s & Hs & _ & Ht).
    exists s. split; assumption.
Qed.

Lemma for_each_prompt_cons self prompt rest results w :
  grammar_checker.for_each_prompt self (prompt :: rest) results w
  = match grammar_checker.ai_grammar_model self (ai_calls w) prompt with
    | Returned [] =>
      (Raised (Exception (u "list index out of range")),
       after_prompt w prompt)
    | Returned (first :: _) =>
      match generated_text first with
      | Some text =>
        grammar_checker.for_each_prompt self rest (results ++ [text])
                                        (after_prompt w prompt)
      | None =>
        (Raised (Exception (u "'generated_text'")), after_prompt w prompt)
      end
    | Raised e => (Raised e, after_prompt w prompt)
    end.
Proof.
  cbn [grammar_checker.for_each_prompt].
  unfold bind, call_generator. fold (after_prompt w prompt).
  destruct (grammar_checker.ai_grammar_model self (ai_calls w) prompt)
    as [[|[[text |]] out] | e]; reflexivity.
Qed.

Lemma for_each_prompt_parser_calls self prompts results w :
  parser_calls (grammar_checker.for_each_prompt self prompts results w).2
  = parser_calls w.
Proof.
  revert results w. induction prompts as [|prompt rest IH]; intros results w.
  - reflexivity.
  - rewrite for_each_prompt_cons.
    destruct (grammar_checker.ai_grammar_model self (ai_calls w) prompt)
      as [[|[[text |]] out] | e]; try reflexivity.
    cbn [generated_text]. rewrite IH. reflexivity.
Qed.

Lemma get_ai_suggestions_eq self text errs w :
  grammar_checker._get_ai_suggestions self text errs w
  = if bool_decide (errs = []) then (Returned [], w)
    else
      match grammar_checker.for_each_prompt self
              [grammar_checker.first_prompt text;
               grammar_checker.second_prompt text] [] w
      with
      | (Returned results, w') => (Returned results, w')
      | (Raised e, w') =>
        (Returned [],
         after_print w' [u "AI suggestion failed: " ++ exn_str e])
      end.
Proof.
  unfold grammar_checker._get_ai_suggestions, try_except.
  destruct (bool_decide (errs = [])); [reflexivity |].
  unfold bind at 1.
  destruct (grammar_checker.for_each_prompt self _ [] w) as [[r | e] w1];
    reflexivity.
Qed.

Lemma get_ai_suggestions_total self text errs w :
  exists suggestions w',
    grammar_checker._get_ai_suggestions self text errs w
    = (Returned suggestions, w')
    /\ parser_calls w' = parser_calls w.
Proof.
  rewrite get_ai_suggestions_eq.
  destruct (bool_decide (errs = [])).
  - exists [], w. split; reflexivity.
  - pose proof (for_each_prompt_parser_calls self
                  [grammar_checker.first_prompt text;
                   grammar_checker.second_prompt text] [] w) as Hp.
    destruct (grammar_checker.for_each_prompt self _ [] w) as [[r | e] w1].
    + exists r, w1. split; [reflexivity | exact Hp].
    + eexists _, _. split; [reflexivity | exact Hp].
Qed.

Lemma get_ai_suggestions_no_errors self text w :
  grammar_checker._get_ai_suggestions self text [] w = (Returned [], w).
Proof. reflexivity. Qed.

Lemma get_ai_suggestions_first_raises self text errs w e :
  grammar_checker.ai_grammar_model self (ai_calls w)
    (grammar_checker.first_prompt text)
  = Raised e ->
  (grammar_checker._get_ai_suggestions self text errs w).1 = Returned [].
Proof.
  intros Hraise. rewrite get_ai_suggestions_eq.
  destruct (bool_decide (errs = [])); [reflexivity |].
  rewrite for_each_prompt_cons, Hraise. reflexivity.
Qed.

Lemma get_ai_suggestions_second_raises self text errs w t1 out e :
  grammar_checker.ai_grammar_model self (ai_calls w)
    (grammar_checker.first_prompt text)
  = Returned (mkGeneration (Some t1) :: out) ->
  grammar_checker.ai_grammar_model self
    (ai_calls w ++ [grammar_checker.first_prompt text])
    (grammar_checker.second_prompt text)
  = Raised e ->
  (grammar_checker._get_ai_suggestions self text errs w).1 = Returned [].
Proof.
  intros Hfirst Hsecond. rewrite get_ai_suggestions_eq.
  destruct (bool_decide (errs = [])); [reflexivity |].
  rewrite for_each_prompt_cons, Hfirst. cbn [generated_text].
  rewrite for_each_prompt_cons. cbn [ai_calls after_prompt].
  rewrite Hsecond. reflexivity.
Qed.

Lemma get_ai_suggestions_requests_imply_errors self text errs w :
  ai_calls (grammar_checker._get_ai_suggestions self text errs w).2
  <> ai_calls w ->
  errs <> [].
Proof.
  intros Hcalls ->. apply Hcalls. reflexivity.
Qed.

Lemma check_without_suggestions_any_generator (utils_nlp : Pipeline)
    (rc : FrenchGrammarRules) (ai ai' : TextGenerator) (p : Pipeline)
    (text : str) (w : World) :
  outcome_map without_suggestions
    (grammar_checker.check utils_nlp
       (grammar_checker.mkFrenchGrammarChecker rc ai p) text w).1
  = outcome_map without_suggestions
      (grammar_checker.check utils_nlp
         (grammar_checker.mkFrenchGrammarChecker rc ai' p) text w).1.
Proof.
  unfold grammar_checker.check.
  destruct (bool_decide (strip text = [])); [reflexivity |].
  unfold bind at 1 5. simpl.
  destruct (rules.check rc text w) as [[errs | e] w1]; [| reflexivity].
  unfold bind at 1 4.
  destruct (get_ai_suggestions_total
              (grammar_checker.mkFrenchGrammarChecker rc ai p) text errs w1)
    as (s1 & w2 & -> & Hp1).
  destruct (get_ai_suggestions_total
              (grammar_checker.mkFrenchGrammarChecker rc ai' p) text errs w1)
    as (s2 & w2' & -> & Hp2).
  unfold bind at 1 3, analyze_sentence_structure.
  unfold bind at 1 3, call_pipeline. rewrite Hp1, Hp2.
  destruct (utils_nlp (parser_calls w1) text) as [doc | e]; [| reflexivity].
  unfold ret at 1 3. unfold bind.
  rewrite (generate_stats_pure errs
             {| parser_calls := parser_calls w1 ++ [text];
                ai_calls := ai_calls w2; stdout := stdout w2 |}).
  rewrite (generate_stats_pure errs
             {| parser_calls := parser_calls w1 ++ [text];
                ai_calls := ai_calls w2'; stdout := stdout w2' |}).
  destruct (grammar_checker._generate_stats errs world0).1; reflexivity.
Qed.

Lemma check_ai_calls (self : FrenchGrammarRules) (text : str) (w : World) :
  ai_calls (rules.check self text w).2 = ai_calls w.
Proof.
  rewrite check_eq.
  destruct (nlp self (parser_calls w) text); reflexivity.
Qed.

Lemma check_no_errors_no_request (utils_nlp : Pipeline)
    (self : grammar_checker.FrenchGrammarChecker) (text : str)
    (w w1 : World) :
  rules.check (grammar_checker.rule_checker self) text w = (Returned [], w1) ->
  ai_calls (grammar_checker.check utils_nlp self text w).2 = ai_calls w.
Proof.
  intros Hcheck.
  pose proof (check_ai_calls (grammar_checker.rule_checker self) text w)
    as Hcalls.
  rewrite Hcheck in Hcalls. cbn [snd] in Hcalls.
  unfold grammar_checker.check.
  destruct (bool_decide (strip text = [])); [reflexivity |].
  unfold bind at 1. rewrite Hcheck.
  unfold bind at 1. rewrite get_ai_suggestions_no_errors.
  unfold bind at 1, analyze_sentence_structure.
  unfold bind at 1, call_pipeline.
  destruct (utils_nlp (parser_calls w1) text) as [doc | e];
    [| exact Hcalls].
  unfold ret at 1. unfold bind. rewrite generate_stats_pure.
  destruct (grammar_checker._generate_stats [] world0).1; exact Hcalls.
Qed.

(** C4. [_get_ai_suggestions] sends nothing to the generator when the error
    list is empty (so any request implies a non-empty list), and a [check]
    whose rules find no error makes no request at all; it never raises and
    never touches the parser; when the generator raises, on the first
    prompt or on the second, the suggestions are the empty list; and the
    text, the errors, the structure and the stats of the result of [check]
    are the same whatever generator the checker holds, raising or not. *)
Theorem ai_suggestions_are_advisory (utils_nlp : Pipeline)
    (rc : FrenchGrammarRules) (ai : TextGenerator) (p : Pipeline)
    (text : str) :
  let self := grammar_checker.mkFrenchGrammarChecker rc ai p in
  (forall w,
      grammar_checker._get_ai_suggestions self text [] w = (Returned [], w))
  /\ (forall errs w,
        ai_calls (grammar_checker._get_ai_suggestions self text errs w).2
        <> ai_calls w ->
        errs <> [])
  /\ (forall w w1,
        rules.check rc text w = (Returned [], w1) ->
        ai_calls (grammar_checker.check utils_nlp self text w).2
        = ai_calls w)
  /\ (forall errs w, exists suggestions w',
        grammar_checker._get_ai_suggestions self text errs w
        = (Returned suggestions, w')
        /\ parser_calls w' = parser_calls w)
  /\ (forall errs w e,
        ai (ai_calls w) (grammar_checker.first_prompt text) = Raised e ->
        (grammar_checker._get_ai_suggestions self text errs w).1
        = Returned [])
  /\ (forall errs w t1 out e,
        ai (ai_calls w) (grammar_checker.first_prompt text)
        = Returned (mkGeneration (Some t1) :: out) ->
        ai (ai_calls w ++ [grammar_checker.first_prompt text])
           (grammar_checker.second_prompt text)
        = Raised e ->
        (grammar_checker._get_ai_suggestions self text errs w).1
        = Returned [])
  /\ (forall ai' w,
        outcome_map without_suggestions
          (grammar_checker.check utils_nlp self text w).1
        = outcome_map without_suggestions
            (grammar_checker.check utils_nlp
               (grammar_checker.mkFrenchGrammarChecker rc ai' p) text w).1).
Proof.
  intros self. split; [| split; [| split; [| split; [| split; [| split]]]]].
  - intros w. apply get_ai_suggestions_no_errors.
  - intros errs w. apply get_ai_suggestions_requests_imply_errors.
  - intros w w1. apply (check_no_errors_no_request utils_nlp self).
  - intros errs w. apply get_ai_suggestions_total.
  - intros errs w e. apply (get_ai_suggestions_first_raises self).
  - intros errs w t1 out e. apply (get_ai_suggestions_second_raises self).
  - intros ai' w. apply check_without_suggestions_any_generator.
Qed.

(** With the generator out of service, the checker still returns the three
    rule errors, and no suggestion. *)
Lemma ai_suggestions_are_advisory_witness :
  (grammar_checker._get_ai_suggestions service_without_ai
     (u "Je mange rapidement") [error_petit] world0).1
  = Returned [].
Proof.
  refine (proj1 (proj2 (proj2 (proj2 (proj2
            (ai_suggestions_are_advisory (parser_always doc_no_violation)
               checker_own_categories generator_raising
               (parser_always doc_no_violation) (u "Je mange rapidement"))))))
            [error_petit] world0 (Exception (u "model unavailable")) _).
  reflexivity.
Defined.

Example service_without_ai_result :
  outcome_map (fun r => (length (grammar_checker.errors r),
                         grammar_checker.ai_suggestions r))
    (grammar_checker.check (parser_always doc_no_violation)
       service_without_ai (u "Je mange rapidement") world0).1
  = Returned (3%nat, []).
Proof. vm_compute. reflexivity. Qed.

(* ================================================================== *)
(** * Properties: compound tenses *)
(* ================================================================== *)

Lemma passe_compose_neq_plus_que_parfait : passe_compose <> plus_que_parfait.
Proof. vm_compute. discriminate. Qed.

(** "Exactly one": a filter with a single result splits the list around it. *)
Lemma filter_singleton {A} (P : A -> Prop) `{forall x, Decision (P x)}
    (l : list A) (x : A) :
  filter P l = [x] <->
  exists pre post,
    l = pre ++ x :: post /\ P x
    /\ Forall (fun y => ~ P y) pre /\ Forall (fun y => ~ P y) post.
Proof.
  split.
  - induction l as [|y r IH]; [discriminate |].
    rewrite filter_cons. destruct (decide (P y)) as [Hy | Hy].
    + intros [= -> Hr]. exists [], r. repeat split; try assumption.
      * constructor.
      * apply Forall_forall. intros z Hz Pz.
        assert (Hin : z ∈ filter P r) by (apply list_elem_of_filter; auto).
        rewrite Hr in Hin. apply elem_of_nil in Hin. exact Hin.
    + intros Hr. destruct (IH Hr) as (pre & post & -> & Px & Hpre & Hpost).
      exists (y :: pre), post. repeat split; try assumption.
      constructor; assumption.
  - intros (pre & post & -> & Px & Hpre & Hpost).
    rewrite filter_app, filter_cons_True by exact Px.
    assert (Hnil : forall l', Forall (fun y => ~ P y) l' -> filter P l' = []).
    { induction 1 as [|z l' Hz _ IH]; [reflexivity |].
      rewrite filter_cons_False by exact Hz. exact IH. }
    rewrite !Hnil by assumption. reflexivity.
Qed.

Lemma main_verbs_nonempty (verb_phrase : list Token) :
  filter is_main_verb verb_phrase <> []
  <-> exists verb, verb ∈ verb_phrase /\ is_main_verb verb.
Proof.
  split.
  - destruct (filter is_main_verb verb_phrase) as [|v r] eqn:E;
      [congruence |].
    intros _. exists v.
    assert (Hin : v ∈ filter is_main_verb verb_phrase)
      by (rewrite E; apply list_elem_of_here).
    apply list_elem_of_filter in Hin as [Hv Hin]. split; assumption.
  - intros (v & Hin & Hv) E.
    assert (Hf : v ∈ filter is_main_verb verb_phrase)
      by (apply list_elem_of_filter; split; assumption).
    rewrite E in Hf. apply elem_of_nil in Hf. exact Hf.
Qed.

Lemma detect_compound_tenses_eq (verb_phrase : list Token) :
  detect_compound_tenses verb_phrase
  = if bool_decide (filter is_auxiliary verb_phrase = []
                    \/ filter is_main_verb verb_phrase = [])
    then None
    else
      match filter is_auxiliary verb_phrase with
      | [aux0] =>
        if bool_decide (lemma_ aux0 ∈ [u "avoir"; u "être"])
        then Some passe_compose else None
      | [aux0; aux1] =>
        if bool_decide (lemma_ aux0 ∈ [u "avoir"; u "être"])
           && bool_decide (lemma_ aux1 = u "avoir")
        then Some plus_que_parfait else None
      | _ => None
      end.
Proof. reflexivity. Qed.

(** C5, as the code has it.  [detect_compound_tenses] answers passé composé
    exactly when the list holds exactly one token tagged AUX, of lemma avoir
    or être, and some token tagged VERB whose lemma is neither être nor
    avoir; plus-que-parfait exactly when it holds exactly two tokens tagged
    AUX, the first of lemma avoir or être and the second of lemma avoir, and
    some such VERB token; and nothing in every other case.  The form of the
    verb, its position and its head are not looked at. *)
Theorem detect_compound_tenses_classifies (verb_phrase : list Token) :
  (detect_compound_tenses verb_phrase = Some passe_compose
   <-> code_passe_compose verb_phrase)
  /\ (detect_compound_tenses verb_phrase = Some plus_que_parfait
      <-> code_plus_que_parfait verb_phrase)
  /\ (~ code_passe_compose verb_phrase ->
      ~ code_plus_que_parfait verb_phrase ->
      detect_compound_tenses verb_phrase = None).
Proof.
  pose proof passe_compose_neq_plus_que_parfait as Hneq.
  pose proof (main_verbs_nonempty verb_phrase) as Hverbs.
  assert (Hpc : code_passe_compose verb_phrase ->
                exists aux, filter is_auxiliary verb_phrase = [aux]
                            /\ lemma_ aux ∈ [u "avoir"; u "être"]
                            /\ filter is_main_verb verb_phrase <> []).
  { intros (aux & verb & E & Hl & Hin & Hv). exists aux.
    split; [exact E |]. split; [exact Hl |].
    apply Hverbs. exists verb. split; assumption. }
  assert (Hpq : code_plus_que_parfait verb_phrase ->
                exists aux0 aux1,
                  filter is_auxiliary verb_phrase = [aux0; aux1]
                  /\ lemma_ aux0 ∈ [u "avoir"; u "être"]
                  /\ lemma_ aux1 = u "avoir"
                  /\ filter is_main_verb verb_phrase <> []).
  { intros (aux0 & aux1 & verb & E & Hl0 & Hl1 & Hin & Hv). exists aux0, aux1.
    split; [exact E |]. split; [exact Hl0 |]. split; [exact Hl1 |].
    apply Hverbs. exists verb. split; assumption. }
  assert (Hpc' : forall aux,
             filter is_auxiliary verb_phrase = [aux] ->
             lemma_ aux ∈ [u "avoir"; u "être"] ->
             filter is_main_verb verb_phrase <> [] ->
             code_passe_compose verb_phrase).
  { intros aux E Hl Hne. apply Hverbs in Hne as (verb & Hin & Hv).
    exists aux, verb. conjuncts. }
  assert (Hpq' : forall aux0 aux1,
             filter is_auxiliary verb_phrase = [aux0; aux1] ->
             lemma_ aux0 ∈ [u "avoir"; u "être"] ->
             lemma_ aux1 = u "avoir" ->
             filter is_main_verb verb_phrase <> [] ->
             code_plus_que_parfait verb_phrase).
  { intros aux0 aux1 E Hl0 Hl1 Hne. apply Hverbs in Hne as (verb & Hin & Hv).
    exists aux0, aux1, verb. conjuncts. }
  clear Hverbs.
  rewrite detect_compound_tenses_eq.
  destruct (filter is_auxiliary verb_phrase) as [|a0 [|a1 [|a2 r]]] eqn:Haux;
    case_bool_decide as Hempty;
    repeat case_bool_decide; cbn [andb];
    (split; [split | split; [split |]]);
    first
      [ solve [ intros E; first [discriminate E | injection E; congruence] ]
      | solve [ intros _; apply (Hpc' a0); [reflexivity | assumption | tauto] ]
      | solve [ intros _; apply (Hpq' a0 a1);
                [reflexivity | assumption | assumption | tauto] ]
      | solve [ intros _ _; reflexivity ]
      | solve [ intros _; reflexivity ]
      | solve [ intros Hcls; apply Hpc in Hcls as (aux & E & Hl & Hne);
                first [discriminate E | injection E; intros; subst; refute] ]
      | solve [ intros Hcls; apply Hpq in Hcls as (aux0 & aux1 & E & Hl0 & Hl1 & Hne);
                first [discriminate E | injection E; intros; subst; refute] ]
      | solve [ intros Hno _; exfalso; apply Hno, (Hpc' a0);
                [reflexivity | assumption | tauto] ]
      | solve [ intros _ Hno; exfalso; apply Hno, (Hpq' a0 a1);
                [reflexivity | assumption | assumption | tauto] ] ].
Qed.

(** C5, as stated, fails: for "a manger" (an auxiliary and an infinitive)
    the code answers passé composé, and for "avait eu manger" it answers
    plus-que-parfait, although in neither list is a verb tagged as a past
    participle. *)
Lemma detect_compound_tenses_ignores_the_participle :
  (detect_compound_tenses vp_a_manger = Some passe_compose
   /\ ~ spec_passe_compose vp_a_manger)
  /\ (detect_compound_tenses vp_avait_eu_manger = Some plus_que_parfait
      /\ ~ spec_plus_que_parfait vp_avait_eu_manger).
Proof.
  split; (split; [vm_compute; reflexivity |]).
  - intros (aux & verb & _ & _ & Hin & [_ Htag] & _).
    unfold vp_a_manger in Hin.
    repeat (apply elem_of_cons in Hin as [-> | Hin];
            [vm_compute in Htag; discriminate |]).
    apply elem_of_nil in Hin. exact Hin.
  - intros (aux0 & aux1 & verb & _ & _ & _ & Hin & [Hpos Htag] & _).
    unfold vp_avait_eu_manger in Hin.
    repeat (apply elem_of_cons in Hin as [-> | Hin];
            [first [ vm_compute in Htag; discriminate
                   | vm_compute in Hpos; discriminate ] |]).
    apply elem_of_nil in Hin. exact Hin.
Qed.

Example detect_compound_tenses_two_auxiliaries :
  detect_compound_tenses
    [ tok "avait" "avoir" "AUX" "" "aux" 0 2;
      tok "eu" "avoir" "AUX" "" "aux" 1 2;
      tok "mangé" "manger" "VERB" "VerbForm=Part" "ROOT" 2 2 ]
  = Some plus_que_parfait.
Proof. vm_compute. reflexivity. Qed.

(* ================================================================== *)
(** * Properties: adverb placement *)
(* ================================================================== *)

Lemma detect_compound_tenses_nonempty (verb_phrase : list Token)
    (tense : str) :
  detect_compound_tenses verb_phrase = Some tense -> tense <> [].
Proof.
  rewrite detect_compound_tenses_eq.
  destruct (bool_decide _); [discriminate |].
  destruct (filter is_auxiliary verb_phrase) as [|a0 [|a1 [|a2 r]]];
    try discriminate.
  - destruct (bool_decide _); [| discriminate].
    intros [= <-]. vm_compute. discriminate.
  - destruct (_ && _); [| discriminate].
    intros [= <-]. vm_compute. discriminate.
Qed.

Lemma has_left_subject (doc : Doc) (head : Token) :
  existsb (fun t => str_in (dep_ t) [u "nsubj"; u "nsubj:pass"])
          (lefts doc head) = true
  <-> exists t, t ∈ lefts doc head /\ is_subject t.
Proof.
  rewrite existsb_exists. unfold is_subject, str_in. split.
  - intros (t & Hin & Hsubj). exists t. split.
    + apply list_elem_of_In. exact Hin.
    + apply bool_decide_eq_true in Hsubj. exact Hsubj.
  - intros (t & Hin & Hsubj). exists t. split.
    + apply list_elem_of_In. exact Hin.
    + apply bool_decide_eq_true. exact Hsubj.
Qed.

Lemma no_misplaced_filter (doc : Doc) (tokens : list Token) :
  Forall (fun t => adverb_violation doc t = None) tokens ->
  filter (misplaced doc) tokens = [].
Proof.
  induction 1 as [|t r Ht _ IH]; [reflexivity |].
  rewrite filter_cons_False; [exact IH |].
  unfold misplaced. intros Hm. apply Hm. exact Ht.
Qed.

(** The loop stops at the first token that one of the tests rejects. *)
Lemma for_each_token_first (doc : Doc) (tokens : list Token) :
  (for_each_token doc tokens = (true, None)
   /\ Forall (fun t => adverb_violation doc t = None) tokens)
  \/ (exists pre token post msg,
        tokens = pre ++ token :: post
        /\ Forall (fun t => adverb_violation doc t = None) pre
        /\ adverb_violation doc token = Some msg
        /\ for_each_token doc tokens = (false, Some msg)).
Proof.
  induction tokens as [|t r IH]; simpl.
  - left. split; [reflexivity | constructor].
  - destruct (adverb_violation doc t) as [msg |] eqn:Ht.
    + right. exists [], t, r, msg. repeat split; [constructor | exact Ht].
    + destruct IH as [[Hres Hall] | (pre & token & post & msg & -> & Hpre
                                       & Htok & Hres)].
      * left. split; [exact Hres | constructor; assumption].
      * right. exists (t :: pre), token, post, msg.
        repeat split; try assumption. constructor; assumption.
Qed.

(** What [adverb_violation] answers, test by test. *)
Lemma adverb_violation_verdict (doc : Doc) (token : Token) :
  match adverb_violation doc token with
  | Some msg => rejected_adverb doc token /\ message_for doc token msg
  | None => ~ rejected_adverb doc token
  end.
Proof.
  pose proof (has_left_subject doc (head_of doc token)) as Hsubj.
  unfold rejected_adverb, message_for, splits_subject_and_verb,
    follows_auxiliary, adverb_violation, verb_phrase_of, str_eqb.
  set (head := head_of doc token) in *.
  set (subject := existsb _ (lefts doc head)) in *.
  case_bool_decide as Hadv; [| tauto].
  case_bool_decide as Hverb; cbn [andb].
  - destruct subject eqn:Hs.
    + assert (Hleft : exists t, t ∈ lefts doc head /\ is_subject t).
      { apply Hsubj. reflexivity. }
      split.
      * split; [exact Hadv |]. left. split; assumption.
      * left. split; [split; assumption | reflexivity].
    + assert (Hnaux : pos_ head <> u "AUX").
      { rewrite Hverb. vm_compute. discriminate. }
      rewrite bool_decide_eq_false_2 by exact Hnaux. cbn [andb].
      intros (_ & [(_ & Hleft) | (tense & Haux & _)]).
      * apply Hsubj in Hleft. discriminate.
      * contradiction.
  - case_bool_decide as Haux; cbn [andb];
      [| intros (_ & [(Hv & _) | (tense & Ha & _)]); contradiction].
    destruct (Nat.ltb_spec (tok_i head) (tok_i token)) as [Hlt | Hge];
      [| intros (_ & [(Hv & _) | (tense & _ & Hlt & _)]);
         [contradiction | lia]].
    destruct (detect_compound_tenses _) as [tense |] eqn:Htense.
    + pose proof (detect_compound_tenses_nonempty _ _ Htense) as Hne.
      rewrite bool_decide_eq_false_2 by exact Hne.
      split.
      * split; [exact Hadv |]. right. exists tense. repeat split; assumption.
      * right. exists tense. split; [repeat split; assumption | reflexivity].
    + intros (_ & [(Hv & _) | (tense & _ & _ & Ht)]);
        [contradiction | discriminate].
Qed.

Lemma misplaced_rejected (doc : Doc) (token : Token) :
  misplaced doc token <-> rejected_adverb doc token.
Proof.
  pose proof (adverb_violation_verdict doc token) as H. unfold misplaced.
  destruct (adverb_violation doc token) as [msg |].
  - split; [intros _; apply H | discriminate].
  - split; [congruence | contradiction].
Qed.

Lemma message_quotes_the_adverb (doc : Doc) (token : Token) (msg : str) :
  message_for doc token msg ->
  exists opening closing, msg = opening ++ tok_text token ++ closing.
Proof.
  intros [[_ ->] | (tense & _ & ->)].
  - eexists _, _. unfold separation_message. reflexivity.
  - exists (u "Dans le " ++ tense ++ u ", l'adverbe '").
    eexists. unfold compound_tense_message.
    rewrite <- !app_assoc. reflexivity.
Qed.

(** C6, as the code has it.  When the parser returns a document,
    [validate_adverb_placement] returns a single verdict.  It is valid, with
    no message, when no token of the document is an adverb that a placement
    test rejects.  Otherwise it is invalid and carries one message, the one
    of the first such token in document order: that token is tagged ADV,
    no token before it is a rejected adverb, and the message is the one of
    the test that rejects it (separation of subject and verb, or position
    after the auxiliary of a compound tense), which quotes the text of the
    adverb.  However many adverbs are misplaced, at most one violation is
    reported; the result is a verdict and a message and holds no character
    range. *)
Theorem validate_adverb_placement_reports_first (nlp : Pipeline)
    (sentence : str) (w : World) (doc : Doc) :
  nlp (parser_calls w) sentence = Returned doc ->
  exists result,
    validate_adverb_placement nlp sentence w
    = (Returned result, after_parse w sentence)
    /\ ((result = (true, None)
         /\ Forall (fun t => ~ rejected_adverb doc t) doc)
        \/ (exists pre token post msg,
              doc = pre ++ token :: post
              /\ Forall (fun t => ~ rejected_adverb doc t) pre
              /\ pos_ token = u "ADV"
              /\ rejected_adverb doc token
              /\ message_for doc token msg
              /\ (exists opening closing,
                    msg = opening ++ tok_text token ++ closing)
              /\ result = (false, Some msg)))
    /\ (forall t, misplaced doc t <-> rejected_adverb doc t)
    /\ n_reported result = Z.min 1 (n_misplaced doc).
Proof.
  intros Hdoc. exists (for_each_token doc doc).
  split.
  { unfold validate_adverb_placement, bind, call_pipeline.
    rewrite Hdoc. reflexivity. }
  assert (Hnone : forall tokens,
             Forall (fun t => adverb_violation doc t = None) tokens ->
             Forall (fun t => ~ rejected_adverb doc t) tokens).
  { intros tokens Htokens. eapply Forall_impl; [exact Htokens |].
    intros t Ht. simpl in Ht.
    pose proof (adverb_violation_verdict doc t) as Hv.
    rewrite Ht in Hv. exact Hv. }
  unfold n_misplaced, Doc in *.
  destruct (for_each_token_first doc doc)
    as [[Hres Hall] | (pre & token & post & msg & Hsplit & Hpre & Htok & Hres)].
  - rewrite Hres, (no_misplaced_filter doc doc Hall). simpl.
    split; [left; split; [reflexivity | apply Hnone; exact Hall] |].
    split; [apply misplaced_rejected | reflexivity].
  - assert (Hcount : (1 <= length (filter (misplaced doc) doc))%nat).
    { rewrite Hsplit at 2. rewrite filter_app, filter_cons_True.
      - rewrite length_app. simpl. lia.
      - unfold misplaced. rewrite Htok. discriminate. }
    pose proof (adverb_violation_verdict doc token) as Hv.
    rewrite Htok in Hv. destruct Hv as [Hrej Hmsg].
    rewrite Hres. split; [| split].
    + right. exists pre, token, post, msg.
      split; [exact Hsplit |]. split; [apply Hnone; exact Hpre |].
      split; [apply Hrej |]. split; [exact Hrej |].
      split; [exact Hmsg |].
      split; [eapply message_quotes_the_adverb; exact Hmsg | reflexivity].
    + apply misplaced_rejected.
    + unfold n_reported. simpl. lia.
Qed.

Lemma validate_adverb_placement_reports_first_witness :
  exists result,
    validate_adverb_placement (parser_always doc_two_adverbs)
      (u "Je souvent rapidement mange") world0
    = (Returned result, after_parse world0 (u "Je souvent rapidement mange"))
    /\ n_reported result = 1.
Proof.
  destruct (validate_adverb_placement_reports_first
              (parser_always doc_two_adverbs)
              (u "Je souvent rapidement mange") world0 doc_two_adverbs)
    as (result & Hres & _ & _ & Hn).
  - reflexivity.
  - exists result. split; [exact Hres |].
    rewrite Hn. vm_compute. reflexivity.
Defined.

(** C6, as stated, fails: in "Je souvent rapidement mange" both adverbs
    stand between subject and verb, and one violation is reported, for
    "souvent"; the result is a verdict and a message, without a range. *)
Lemma validate_adverb_placement_reports_one_of_two :
  n_misplaced doc_two_adverbs = 2
  /\ (validate_adverb_placement (parser_always doc_two_adverbs)
        (u "Je souvent rapidement mange") world0).1
     = Returned
         (false,
          Some (u "Adverbe 'souvent' mal placé. En français, l'adverbe ne doit généralement pas séparer le sujet et le verbe."))
  /\ n_reported
       (false,
        Some (u "Adverbe 'souvent' mal placé. En français, l'adverbe ne doit généralement pas séparer le sujet et le verbe."))
     = 1.
Proof.
  split; [| split]; vm_compute; reflexivity.
Qed.

Example adverb_after_auxiliary :
  (validate_adverb_placement (parser_always doc_compound)
     (u "J'ai rapidement mangé") world0).1
  = Returned
      (false,
       Some (u "Dans le passé composé, l'adverbe 'rapidement' devrait normalement se placer après l'auxiliaire 'ai'.")).
Proof. vm_compute. reflexivity. Qed.

Example adverb_after_verb :
  (validate_adverb_placement (parser_always doc_no_violation)
     (u "Je mange rapidement") world0).1
  = Returned (true, None).
Proof. vm_compute. reflexivity. Qed.

(* ================================================================== *)
(** * Further properties: the registry *)
(* ================================================================== *)

Lemma dict_set_set {K V : Type} `{EqDecision K} (d : dict K V) (k : K)
    (v1 v2 : V) :
  dict_set (dict_set d k v1) k v2 = dict_set d k v2.
Proof.
  induction d as [|[k' v'] r IH]; simpl.
  - rewrite decide_True by reflexivity. reflexivity.
  - destruct (decide (k' = k)) as [-> | Hne]; simpl.
    + rewrite decide_True by reflexivity. reflexivity.
    + rewrite decide_False by assumption. rewrite IH. reflexivity.
Qed.

Lemma dict_set_new {K V : Type} `{EqDecision K} (d : dict K V) (k : K)
    (v : V) :
  dict_get d k = None -> dict_set d k v = d ++ [(k, v)].
Proof.
  induction d as [|[k' v'] r IH]; simpl; [reflexivity |].
  destruct (decide (k' = k)) as [-> | Hne]; [discriminate |].
  intros Hnone. rewrite IH by exact Hnone. reflexivity.
Qed.

(** X1. Registering a rule whose type is not yet in the registry puts it
    last: the registry is the old one followed by the new entry, so the
    rule is applied after all the others and its errors are collected after
    theirs. *)
Theorem add_rule_appends_new_type (self : FrenchGrammarRules)
    (rule : GrammarRule) (doc : Doc) (text : str) :
  get_rule self (rule_type_of rule) = None ->
  _rules (add_rule self (a_rule rule))
  = _rules self ++ [(rule_type_of rule, rule)]
  /\ get_rule (add_rule self (a_rule rule)) (rule_type_of rule) = Some rule
  /\ collected (dict_values (_rules (add_rule self (a_rule rule)))) doc text
     = collected (dict_values (_rules self)) doc text
       ++ contribution doc text rule.
Proof.
  intros Hnew. unfold get_rule in *. simpl.
  rewrite (dict_set_new _ _ _ Hnew). split; [reflexivity |].
  split.
  - rewrite <- (dict_set_new _ _ _ Hnew). apply dict_get_set_same.
  - unfold dict_values. rewrite fmap_app, collected_app.
    unfold collected at 2. simpl. rewrite app_nil_r. reflexivity.
Qed.

Lemma add_rule_appends_new_type_witness :
  _rules (add_rule checker_own_categories
            (a_rule (rule_reporting PUNCTUATION [])))
  = _rules checker_own_categories
    ++ [(PUNCTUATION, rule_reporting PUNCTUATION [])].
Proof.
  refine (proj1 (add_rule_appends_new_type checker_own_categories
                   (rule_reporting PUNCTUATION []) doc_no_violation
                   (u "Je mange rapidement") _)).
  reflexivity.
Defined.

(** X2. Of two rules of the same type registered one after the other, only
    the second counts: the registry is the one obtained by registering the
    second alone. *)
Theorem add_rule_last_wins (self : FrenchGrammarRules)
    (first second : GrammarRule) :
  rule_type_of first = rule_type_of second ->
  add_rule (add_rule self (a_rule first)) (a_rule second)
  = add_rule self (a_rule second).
Proof.
  intros Hsame. unfold add_rule. simpl.
  rewrite Hsame, dict_set_set. reflexivity.
Qed.

Lemma add_rule_last_wins_witness :
  add_rule (add_rule checker_own_categories
              (a_rule (rule_raising AGREEMENT "no morphology")))
           (a_rule (rule_reporting AGREEMENT []))
  = add_rule checker_own_categories (a_rule (rule_reporting AGREEMENT [])).
Proof.
  apply (add_rule_last_wins checker_own_categories
           (rule_raising AGREEMENT "no morphology")
           (rule_reporting AGREEMENT [])).
  reflexivity.
Defined.

(** X3. Whatever is registered after construction, the four built-in types
    stay registered: [add_rule] replaces or adds, nothing removes, and the
    registry holds four or five rules. *)
Theorem constructed_registry_keeps_builtin_types (self : FrenchGrammarRules) :
  constructed self ->
  (forall t, t <> PUNCTUATION -> get_rule self t <> None)
  /\ (length (_rules self) = 4%nat \/ length (_rules self) = 5%nat).
Proof.
  intros Hc. pose proof (constructed_keys self Hc) as Hkeys. split.
  - intros t Ht. unfold get_rule. apply dict_get_keys.
    destruct Hkeys as [-> | ->]; destruct t; try congruence;
      repeat first [apply list_elem_of_here | apply list_elem_of_further].
  - unfold dict_keys in Hkeys.
    destruct Hkeys as [H | H]; apply (f_equal length) in H;
      rewrite length_fmap in H; simpl in H; auto.
Qed.

Lemma constructed_registry_keeps_builtin_types_witness :
  get_rule checker_foreign_category CONJUGATION <> None.
Proof.
  refine (proj1 (constructed_registry_keeps_builtin_types
                   checker_foreign_category _) CONJUGATION _).
  - unfold checker_foreign_category. apply constructed_add, constructed_init.
  - discriminate.
Defined.

(* ================================================================== *)
(** * Further properties: the orchestrator *)
(* ================================================================== *)

Lemma failure_lines_length (rules : list GrammarRule) (doc : Doc) :
  length (failure_lines rules doc)
  = length (filter (fun rule => raises (rule_apply rule doc) = true) rules).
Proof.
  induction rules as [|rule rest IH]; [reflexivity |].
  rewrite filter_cons. unfold failure_lines in *. cbn [map concat].
  rewrite length_app.
  destruct (rule_apply rule doc) as [produced | e]; cbn [raises].
  - rewrite decide_False by discriminate. exact IH.
  - rewrite decide_True by reflexivity. cbn [length Nat.add].
    f_equal. exact IH.
Qed.

(** X4. What one [check] does to its environment: it hands the text to the
    parser once, sends nothing to the text generator, and prints one line
    per registered rule that raises.  When the parser itself raises, that
    exception is the outcome of [check] and nothing is printed. *)
Theorem check_footprint (self : FrenchGrammarRules) (text : str) (w : World) :
  parser_calls (rules.check self text w).2 = parser_calls w ++ [text]
  /\ ai_calls (rules.check self text w).2 = ai_calls w
  /\ (forall e,
        nlp self (parser_calls w) text = Raised e ->
        rules.check self text w = (Raised e, after_parse w text))
  /\ (forall doc,
        nlp self (parser_calls w) text = Returned doc ->
        exists lines,
          stdout (rules.check self text w).2 = stdout w ++ lines
          /\ length lines
             = length (filter (fun rule => raises (rule_apply rule doc) = true)
                              (dict_values (_rules self)))).
Proof.
  rewrite check_eq. repeat split.
  - destruct (nlp self (parser_calls w) text); reflexivity.
  - destruct (nlp self (parser_calls w) text); reflexivity.
  - intros e ->. reflexivity.
  - intros doc ->. eexists. split; [reflexivity |].
    apply failure_lines_length.
Qed.

Section SublistFacts.
Context {A : Type} (key : A -> Z).

Lemma insert_by_key_front (x : A) (l : list A) :
  Forall (fun y => key x <= key y) l -> insert_by_key key x l = x :: l.
Proof.
  destruct 1 as [|y r Hy _]; [reflexivity |]. simpl.
  destruct (Z.leb_spec (key x) (key y)); [reflexivity | lia].
Qed.

Lemma sublist_insert_by_key (x : A) (l : list A) :
  l `sublist_of` insert_by_key key x l.
Proof.
  induction l as [|y r IH]; simpl; [apply sublist_nil_l |].
  destruct (key x <=? key y).
  - apply sublist_cons. reflexivity.
  - apply sublist_skip. exact IH.
Qed.

Lemma insert_by_key_sublist (x : A) (l1 l2 : list A) :
  StronglySorted (fun a b => key a <= key b) l2 ->
  l1 `sublist_of` l2 ->
  insert_by_key key x l1 `sublist_of` insert_by_key key x l2.
Proof.
  intros Hsorted Hsub.
  induction Hsub as [| y l1 l2 Hsub IH | y l1 l2 Hsub IH]; simpl.
  - reflexivity.
  - apply StronglySorted_cons in Hsorted as [_ Hs].
    destruct (key x <=? key y).
    + apply sublist_skip, sublist_skip. exact Hsub.
    + apply sublist_skip. apply IH. exact Hs.
  - apply StronglySorted_cons in Hsorted as [Hy Hs].
    destruct (Z.leb_spec (key x) (key y)) as [Hle | Hgt].
    + rewrite insert_by_key_front.
      * apply sublist_skip, sublist_cons. exact Hsub.
      * apply Forall_forall. intros z Hz.
        rewrite Forall_forall in Hy.
        specialize (Hy z (elem_of_sublist _ _ _ Hz Hsub)). simpl in Hy. lia.
    + apply sublist_cons. apply IH. exact Hs.
Qed.

(** Sorting keeps every sub-sequence a sub-sequence. *)
Lemma sorted_sublist (l1 l2 : list A) :
  l1 `sublist_of` l2 -> sorted key l1 `sublist_of` sorted key l2.
Proof.
  induction 1 as [| x l1 l2 Hsub IH | x l1 l2 Hsub IH]; simpl.
  - reflexivity.
  - apply insert_by_key_sublist; [apply sorted_by_key | exact IH].
  - etransitivity; [exact IH | apply sublist_insert_by_key].
Qed.
End SublistFacts.

(** X5. Rules are independent.  Taking one rule out of the registry, whether
    it raises or not, removes its own errors from the result and nothing
    else: the list returned without the rule is a sub-sequence of the list
    returned with it (same errors, same relative order), and the list with
    the rule is, up to order, the list without it plus the rule's errors. *)
Theorem check_rules_are_independent (parser : Pipeline)
    (before after : dict RuleType GrammarRule) (k : RuleType)
    (rule : GrammarRule) (text : str) (w : World) (doc : Doc) :
  parser (parser_calls w) text = Returned doc ->
  exists with_rule without_rule,
    (rules.check (mkFrenchGrammarRules parser (before ++ (k, rule) :: after))
                 text w).1
    = Returned with_rule
    /\ (rules.check (mkFrenchGrammarRules parser (before ++ after))
                    text w).1
       = Returned without_rule
    /\ without_rule `sublist_of` with_rule
    /\ with_rule ≡ₚ without_rule ++ contribution doc text rule.
Proof.
  intros Hdoc. rewrite !check_eq. simpl. rewrite Hdoc. simpl.
  eexists _, _. split; [reflexivity |]. split; [reflexivity |].
  unfold dict_values. rewrite !fmap_app, fmap_cons. cbn [snd].
  change (rule :: after.*2) with ([rule] ++ after.*2).
  rewrite !collected_app.
  replace (collected [rule] doc text) with (contribution doc text rule)
    by (unfold collected; simpl; rewrite app_nil_r; reflexivity).
  split.
  - apply sorted_sublist. apply sublist_app; [reflexivity |].
    apply sublist_inserts_l. reflexivity.
  - rewrite !sorted_Permutation.
    rewrite <- !app_assoc. apply Permutation_app_head.
    apply Permutation_app_comm.
Qed.

Lemma check_rules_are_independent_witness :
  exists with_rule without_rule,
    (rules.check checker_own_categories (u "Je mange rapidement") world0).1
    = Returned with_rule
    /\ without_rule `sublist_of` with_rule
    /\ length without_rule = 2%nat.
Proof.
  destruct (check_rules_are_independent (parser_always doc_no_violation)
              []
              [ (CONJUGATION, rule_reporting CONJUGATION []);
                (AGREEMENT,
                 rule_reporting AGREEMENT
                   [error_at AGREEMENT "number" 3 8;
                    error_at AGREEMENT "gender" 0 2]);
                (STRUCTURE, rule_reporting STRUCTURE []) ]
              ADVERB (rule_reporting ADVERB [error_at ADVERB "adverb" 3 8])
              (u "Je mange rapidement") world0 doc_no_violation)
    as (with_rule & without_rule & Hwith & Hwithout & Hsub & _).
  - reflexivity.
  - exists with_rule, without_rule. split; [exact Hwith |].
    split; [exact Hsub |].
    vm_compute in Hwithout. injection Hwithout as <-. reflexivity.
Defined.

(* ================================================================== *)
(** * Properties: a rule that fails part-way *)
(* ================================================================== *)

Lemma apply_in_try_eq (doc : Doc) (text : str) (rule : RuleObject)
    (errors : list GrammarError) (w : World) :
  caught doc rule ->
  apply_in_try doc text rule errors w
  = (Normal (errors ++ handed_out doc text rule),
     after_print w (lines_for [rule] doc)).
Proof.
  intros Hcaught. unfold apply_in_try, handed_out, lines_for, caught in *.
  cbn [map concat]. rewrite attach_all_eq.
  destruct (stopped_by (object_apply rule doc)) as [[e | name] |].
  - rewrite app_nil_r. reflexivity.
  - exfalso. apply (Hcaught name). reflexivity.
  - rewrite after_print_nil. reflexivity.
Qed.

Lemma for_each_object_eq (rules : list RuleObject) (doc : Doc) (text : str)
    (errors : list GrammarError) (w : World) :
  Forall (caught doc) rules ->
  for_each_object rules doc text errors w
  = (Normal (errors ++ concat (map (handed_out doc text) rules)),
     after_print w (lines_for rules doc)).
Proof.
  intros Hall. revert errors w.
  induction Hall as [|rule rest Hrule _ IH]; intros errors w.
  - simpl. unfold lines_for. simpl.
    rewrite app_nil_r, after_print_nil. reflexivity.
  - cbn [for_each_object]. rewrite (apply_in_try_eq _ _ _ _ _ Hrule), IH.
    rewrite after_print_app, <- app_assoc.
    unfold lines_for. cbn [map concat]. rewrite app_nil_r. reflexivity.
Qed.

Lemma check_objects_eq (nlp : Pipeline) (registry : dict RuleType RuleObject)
    (text : str) (w : World) (doc : Doc) :
  nlp (parser_calls w) text = Returned doc ->
  Forall (caught doc) (dict_values registry) ->
  check_objects nlp registry text w
  = (Normal (sorted start_pos
               (concat (map (handed_out doc text) (dict_values registry)))),
     after_print (after_parse w text) (lines_for (dict_values registry) doc)).
Proof.
  intros Hdoc Hall. unfold check_objects, call_pipeline. rewrite Hdoc.
  fold (after_parse w text). rewrite (for_each_object_eq _ _ _ _ _ Hall).
  reflexivity.
Qed.

Lemma caught_as_object (doc : Doc) (rule : GrammarRule) :
  caught doc (as_object rule).
Proof.
  intros name. unfold as_object, iteration_of. cbn [object_apply].
  destruct (rule_apply rule doc); discriminate.
Qed.

(** On rules that return a list, [check_objects] is [check]. *)
Lemma check_objects_of_rules (self : FrenchGrammarRules) (text : str)
    (w : World) :
  check_objects (nlp self) (prod_map id as_object <$> _rules self) text w
  = (completion_of (rules.check self text w).1,
     (rules.check self text w).2).
Proof.
  rewrite check_eq.
  destruct (nlp self (parser_calls w) text) as [doc | e] eqn:Hdoc.
  - assert (Hvalues : dict_values (prod_map id as_object <$> _rules self)
                      = as_object <$> dict_values (_rules self)).
    { unfold dict_values. rewrite <- !list_fmap_compose.
      apply list_fmap_ext. intros _ [k rule] _. reflexivity. }
    rewrite (check_objects_eq _ _ _ _ doc Hdoc).
    + rewrite Hvalues. cbn [fst snd completion_of]. f_equal.
      * f_equal. f_equal. unfold collected.
        rewrite <- list_fmap_compose. f_equal. apply list_fmap_ext.
        intros _ rule _. unfold handed_out, contribution, as_object, iteration_of.
        cbn [object_apply compose]. destruct (rule_apply rule doc); reflexivity.
      * f_equal. unfold lines_for, failure_lines.
        rewrite <- list_fmap_compose. f_equal. apply list_fmap_ext.
        intros _ rule _. unfold as_object, iteration_of.
        cbn [object_apply object_rule_type compose].
        destruct (rule_apply rule doc); reflexivity.
    + rewrite Hvalues. apply Forall_fmap, Forall_forall.
      intros rule _. apply caught_as_object.
  - unfold check_objects, call_pipeline. rewrite Hdoc. reflexivity.
Qed.

(** C2, as the code has it.  When an [Exception] stops the iteration over
    what a registered rule's [apply] gives, [check] still returns: the
    exception does not reach the caller, and one line more is printed than
    without the rule.  The rule contributes the errors it had handed out
    before the exception, no more and no fewer: the list returned without
    the rule is a sub-sequence of the list returned with it, and the list
    with the rule is, up to order, the list without it plus those errors.
    When the rule fails before it hands out anything, as every [apply] that
    returns a list does, the two lists are equal.  The other rules are
    taken to end or to be stopped by an [Exception] as well. *)
Theorem failing_rule_keeps_what_it_yielded (nlp : Pipeline)
    (before after : dict RuleType RuleObject) (k : RuleType)
    (rule : RuleObject) (text : str) (w : World) (doc : Doc) (e : exn) :
  nlp (parser_calls w) text = Returned doc ->
  stopped_by (object_apply rule doc) = Some (an_Exception e) ->
  Forall (caught doc) (dict_values (before ++ after)) ->
  exists with_rule without_rule w1 w2,
    check_objects nlp (before ++ (k, rule) :: after) text w
    = (Normal with_rule, w1)
    /\ check_objects nlp (before ++ after) text w = (Normal without_rule, w2)
    /\ without_rule `sublist_of` with_rule
    /\ with_rule
       ≡ₚ without_rule
          ++ map (fun e => set_source_text e text)
                 (yielded (object_apply rule doc))
    /\ (yielded (object_apply rule doc) = [] -> with_rule = without_rule)
    /\ length (stdout w1) = S (length (stdout w2)).
Proof.
  intros Hdoc Hstop Hothers.
  assert (Hrule : caught doc rule).
  { intros name. rewrite Hstop. discriminate. }
  assert (Hall : Forall (caught doc) (dict_values (before ++ (k, rule) :: after))).
  { unfold dict_values in *. rewrite fmap_app in *. rewrite fmap_cons.
    apply Forall_app in Hothers as [Hb Ha].
    apply Forall_app. split; [exact Hb |]. constructor; assumption. }
  rewrite (check_objects_eq _ _ _ _ doc Hdoc Hall).
  rewrite (check_objects_eq _ _ _ _ doc Hdoc Hothers).
  eexists _, _, _, _. split; [reflexivity |]. split; [reflexivity |].
  unfold dict_values. rewrite !fmap_app, !fmap_cons. cbn [snd].
  rewrite !concat_app. cbn [concat].
  fold (handed_out doc text rule).
  split; [| split; [| split]].
  - apply sorted_sublist. apply sublist_app; [reflexivity |].
    apply sublist_inserts_l. reflexivity.
  - rewrite !sorted_Permutation.
    rewrite <- !app_assoc. apply Permutation_app_head.
    apply Permutation_app_comm.
  - intros Hnone. unfold handed_out. rewrite Hnone. reflexivity.
  - unfold after_print, lines_for. cbn [stdout].
    rewrite !fmap_app, fmap_cons, Hstop.
    rewrite !concat_app. cbn [concat].
    rewrite !length_app. cbn [length]. lia.
Qed.

Lemma failing_rule_keeps_what_it_yielded_witness :
  exists with_rule without_rule,
    (check_objects (parser_always doc_no_violation) registry_failing_part_way
                   (u "Je mange rapidement") world0).1
    = Normal with_rule
    /\ without_rule `sublist_of` with_rule
    /\ with_rule
       ≡ₚ without_rule
          ++ [ set_source_text (error_at AGREEMENT "number" 3 8)
                               (u "Je mange rapidement") ].
Proof.
  destruct (failing_rule_keeps_what_it_yielded
              (parser_always doc_no_violation)
              [ (ADVERB,
                 as_object (rule_reporting ADVERB
                              [error_at ADVERB "adverb" 3 8]));
                (CONJUGATION, as_object (rule_reporting CONJUGATION [])) ]
              [ (STRUCTURE,
                 as_object (rule_reporting STRUCTURE
                              [error_at STRUCTURE "order" 0 2])) ]
              AGREEMENT rule_failing_part_way
              (u "Je mange rapidement") world0 doc_no_violation
              (Exception (u "no morphology")))
    as (with_rule & without_rule & w1 & w2 & Hwith & _ & Hsub & Hperm & _).
  - reflexivity.
  - reflexivity.
  - repeat constructor; intros name; vm_compute; discriminate.
  - exists with_rule, without_rule.
    split; [exact (f_equal fst Hwith) |].
    split; [exact Hsub | exact Hperm].
Defined.

(** C2, as stated, fails.  A rule registered with [add_rule] whose [apply]
    is a generator hands out one error and then raises: the exception is
    caught and printed, and the error stays in the list that [check]
    returns, which is one error longer than the list returned without the
    rule.  And an exception that is not an instance of [Exception] is not
    caught at all: it reaches the caller of [check]. *)
Lemma failing_rule_contributes_partial_output :
  stopped_by (object_apply rule_failing_part_way doc_no_violation)
  = Some (an_Exception (Exception (u "no morphology")))
  /\ check_objects (parser_always doc_no_violation) registry_failing_part_way
                   (u "Je mange rapidement") world0
     = (Normal
          [ set_source_text (error_at STRUCTURE "order" 0 2)
                            (u "Je mange rapidement");
            set_source_text (error_at ADVERB "adverb" 3 8)
                            (u "Je mange rapidement");
            set_source_text (error_at AGREEMENT "number" 3 8)
                            (u "Je mange rapidement") ],
        mkWorld [u "Je mange rapidement"] []
                [u "Error applying RuleType.AGREEMENT rules: no morphology"])
  /\ (check_objects (parser_always doc_no_violation) registry_built_in
                    (u "Je mange rapidement") world0).1
     = Normal
         [ set_source_text (error_at STRUCTURE "order" 0 2)
                           (u "Je mange rapidement");
           set_source_text (error_at ADVERB "adverb" 3 8)
                           (u "Je mange rapidement") ]
  /\ (check_objects (parser_always doc_no_violation) registry_interrupted
                    (u "Je mange rapidement") world0).1
     = Abrupt (a_BaseException (u "KeyboardInterrupt")).
Proof.
  split; [| split; [| split]]; vm_compute; reflexivity.
Qed.

(* ================================================================== *)
(** * Further properties: the highlighted view outside the invariant *)
(* ================================================================== *)

Lemma slice_bound_negative (n i : Z) :
  - n <= i < 0 -> slice_bound n i = slice_bound n (i + n).
Proof.
  intros H. unfold slice_bound.
  destruct (Z.ltb_spec i 0); [| lia].
  destruct (Z.ltb_spec (i + n) 0); [lia |].
  f_equal. lia.
Qed.

(** X6. Negative offsets do not raise: each is counted from the end of the
    source text, so an error with offsets [(a, b)], both in
    [[-len, 0)], is highlighted exactly as with [(a + len, b + len)]. *)
Theorem highlighted_negative_offsets (e : GrammarError) :
  - len (source_text e) <= start_pos e < 0 ->
  - len (source_text e) <= end_pos e < 0 ->
  (highlighted e).1
  = (highlighted (with_offsets e (start_pos e + len (source_text e))
                               (end_pos e + len (source_text e)))).1.
Proof.
  intros Ha Hb. unfold highlighted, slice. simpl.
  rewrite <- !(slice_bound_negative _ _ Ha).
  rewrite <- !(slice_bound_negative _ _ Hb). reflexivity.
Qed.

Lemma highlighted_negative_offsets_witness :
  (highlighted (with_offsets error_petit (-11) (-6))).1
  = (highlighted (with_offsets (with_offsets error_petit (-11) (-6))
                               (-11 + 14) (-6 + 14))).1.
Proof.
  apply (highlighted_negative_offsets (with_offsets error_petit (-11) (-6)));
    vm_compute; split; congruence.
Defined.

(** X7. Offsets past the end do not raise either: they are clamped to the
    length of the text, so an error lying wholly past the end is shown as
    the whole text followed by the two markers with nothing between. *)
Theorem highlighted_past_the_end (e : GrammarError) :
  len (source_text e) <= start_pos e ->
  len (source_text e) <= end_pos e ->
  (highlighted e).1 = source_text e ++ u ">>>" ++ u "<<<".
Proof.
  intros Ha Hb. unfold highlighted, slice, slice_bound, len in *. simpl.
  destruct (Z.ltb_spec (start_pos e) 0); [lia |].
  destruct (Z.ltb_spec (end_pos e) 0); [lia |].
  rewrite !Z.min_r by lia. rewrite !Nat2Z.id.
  rewrite firstn_all, drop_all. reflexivity.
Qed.

Lemma highlighted_past_the_end_witness :
  (highlighted (with_offsets error_petit 20 25)).1
  = u "La petit fille" ++ u ">>>" ++ u "<<<".
Proof.
  apply (highlighted_past_the_end (with_offsets error_petit 20 25));
    vm_compute; congruence.
Defined.

(** X8. With the two offsets in the text but in the wrong order
    ([end_pos < start_pos]) the span is empty and the characters between
    the two offsets appear twice, before the markers and after them: the
    view is longer than text plus markers by [start_pos - end_pos]. *)
Theorem highlighted_reversed_offsets (e : GrammarError) :
  0 <= end_pos e -> end_pos e < start_pos e ->
  start_pos e <= len (source_text e) ->
  (highlighted e).1
  = take (Z.to_nat (start_pos e)) (source_text e)
    ++ u ">>>" ++ u "<<<"
    ++ drop (Z.to_nat (end_pos e)) (source_text e)
  /\ len (highlighted e).1
     = len (source_text e) + 6 + (start_pos e - end_pos e).
Proof.
  intros H0 H1 H2.
  assert (Hview : (highlighted e).1
                  = take (Z.to_nat (start_pos e)) (source_text e)
                    ++ u ">>>" ++ u "<<<"
                    ++ drop (Z.to_nat (end_pos e)) (source_text e)).
  { unfold highlighted. cbn [fst].
    rewrite slice_prefix, slice_suffix by lia.
    unfold slice, slice_bound.
    destruct (Z.ltb_spec (start_pos e) 0); [lia |].
    destruct (Z.ltb_spec (end_pos e) 0); [lia |].
    rewrite !Z.min_l by lia.
    rewrite (drop_ge (take _ _)) by (rewrite length_take; lia).
    reflexivity. }
  split; [exact Hview |].
  rewrite Hview. unfold len in *.
  rewrite !length_app, length_take, length_drop.
  change (length (u ">>>")) with 3%nat. change (length (u "<<<")) with 3%nat.
  lia.
Qed.

Lemma highlighted_reversed_offsets_witness :
  (highlighted (with_offsets error_petit 8 3)).1
  = u "La petit>>><<<petit fille".
Proof.
  refine (eq_trans
            (proj1 (highlighted_reversed_offsets
                      (with_offsets error_petit 8 3) _ _ _)) _);
    vm_compute; congruence.
Defined.

(* ================================================================== *)
(** * Further properties: the statistics *)
(* ================================================================== *)

Lemma french_label_inj (a b : RuleType) :
  french_label a = french_label b -> a = b.
Proof.
  destruct a, b; intros H; try reflexivity; vm_compute in H; discriminate.
Qed.

Lemma count_of_cons (t : RuleType) (e : GrammarError)
    (errors : list GrammarError) :
  count_of t (e :: errors)
  = (if decide (rule_type e = t) then 1 else 0) + count_of t errors.
Proof.
  unfold count_of. rewrite filter_cons.
  destruct (decide (rule_type e = t)); simpl length; lia.
Qed.

Lemma count_of_sum (errors : list GrammarError) :
  count_of ADVERB errors + count_of CONJUGATION errors
  + count_of AGREEMENT errors + count_of STRUCTURE errors
  + count_of PUNCTUATION errors
  = Z.of_nat (length errors).
Proof.
  induction errors as [|e r IH]; [reflexivity |].
  rewrite !count_of_cons. simpl length.
  destruct (rule_type e);
    repeat first [ rewrite decide_True by reflexivity
                 | rewrite decide_False by discriminate ];
    lia.
Qed.

Lemma count_by_type_counts (errors : list GrammarError)
    (by_type : gmap str Z) (c : RuleType -> Z) (w : World) :
  (forall t, by_type !! french_label t = Some (c t)) ->
  exists by_type',
    grammar_checker.count_by_type errors by_type w = (Returned by_type', w)
    /\ (forall t,
          by_type' !! french_label t = Some (c t + count_of t errors))
    /\ (forall l, by_type' !! l = None <-> by_type !! l = None).
Proof.
  revert by_type c. induction errors as [|e r IH]; intros by_type c Hc.
  - exists by_type. split; [reflexivity |]. split; [| tauto].
    intros t. rewrite Hc. f_equal. unfold count_of. simpl. lia.
  - cbn [grammar_checker.count_by_type].
    unfold bind, grammar_checker.increment. rewrite (Hc (rule_type e)).
    unfold ret.
    destruct (IH (<[french_label (rule_type e) := c (rule_type e) + 1]>
                    by_type)
                 (fun t => if decide (rule_type e = t)
                           then c t + 1 else c t))
      as (by_type' & Hrun & Hcount & Hdom).
    { intros t. destruct (decide (rule_type e = t)) as [<- | Hne].
      - apply lookup_insert_eq.
      - rewrite lookup_insert_ne; [apply Hc |].
        intros Heq. apply Hne, french_label_inj. exact Heq. }
    exists by_type'. split; [exact Hrun |]. split.
    + intros t. rewrite Hcount, count_of_cons.
      f_equal. destruct (decide (rule_type e = t)); lia.
    + intros l. rewrite Hdom.
      destruct (decide (french_label (rule_type e) = l)) as [<- | Hne].
      * rewrite lookup_insert_eq, Hc. split; discriminate.
      * rewrite lookup_insert_ne by exact Hne. tauto.
Qed.

(** X9. [_generate_stats] never raises and touches nothing outside.  The
    total is the number of errors; the per-category mapping has exactly the
    five category labels as keys; each label is mapped to the number of
    errors of its category; and the five counts add up to the total. *)
Theorem generate_stats_counts (errors : list GrammarError) (w : World) :
  exists s,
    grammar_checker._generate_stats errors w = (Returned s, w)
    /\ grammar_checker.total_errors s = Z.of_nat (length errors)
    /\ (forall t,
          grammar_checker.by_type s !! french_label t
          = Some (count_of t errors))
    /\ (forall l,
          grammar_checker.by_type s !! l <> None ->
          exists t, l = french_label t)
    /\ count_of ADVERB errors + count_of CONJUGATION errors
       + count_of AGREEMENT errors + count_of STRUCTURE errors
       + count_of PUNCTUATION errors
       = grammar_checker.total_errors s.
Proof.
  unfold grammar_checker._generate_stats, bind.
  set (zeros := list_to_map
                  (map (fun rule_type => (french_label rule_type, 0))
                       RuleType_members) : gmap str Z).
  destruct (count_by_type_counts errors zeros (fun _ => 0) w)
    as (by_type' & Hrun & Hcount & Hdom).
  { intros t. destruct t; vm_compute; reflexivity. }
  rewrite Hrun. eexists. split; [reflexivity |]. cbn.
  split; [reflexivity |]. split; [| split].
  - intros t. rewrite Hcount. reflexivity.
  - intros l Hl.
    destruct (zeros !! l) as [v |] eqn:Hz;
      [| exfalso; apply Hl, Hdom; exact Hz].
    apply elem_of_list_to_map_2 in Hz.
    apply list_elem_of_fmap in Hz as (t & [= -> _] & _).
    exists t. reflexivity.
  - apply count_of_sum.
Qed.

(* ================================================================== *)
(** * Further properties: the AI suggestions *)
(* ================================================================== *)

Lemma for_each_prompt_length self prompts results w r w' :
  grammar_checker.for_each_prompt self prompts results w = (Returned r, w') ->
  length r = (length results + length prompts)%nat.
Proof.
  revert results w. induction prompts as [|prompt rest IH]; intros results w.
  - intros [= <- _]. simpl. lia.
  - rewrite for_each_prompt_cons.
    destruct (grammar_checker.ai_grammar_model self (ai_calls w) prompt)
      as [[|[[text |]] out] | e]; try discriminate.
    cbn [generated_text]. intros H. apply IH in H.
    rewrite length_app in H. simpl in H |- *. lia.
Qed.

Lemma for_each_prompt_ai_calls self prompts results w :
  exists sent,
    ai_calls (grammar_checker.for_each_prompt self prompts results w).2
    = ai_calls w ++ sent
    /\ sent `prefix_of` prompts
    /\ (prompts <> [] -> sent <> []).
Proof.
  revert results w. induction prompts as [|prompt rest IH]; intros results w.
  - exists []. simpl. rewrite app_nil_r. repeat split; [| congruence].
    reflexivity.
  - rewrite for_each_prompt_cons.
    destruct (grammar_checker.ai_grammar_model self (ai_calls w) prompt)
      as [[|[[text |]] out] | e]; cbn [generated_text];
      try (exists [prompt]; split; [reflexivity |];
           split; [exists rest; reflexivity | discriminate]).
    destruct (IH (results ++ [text]) (after_prompt w prompt))
      as (sent & Hcalls & Hprefix & _).
    exists (prompt :: sent). split; [| split; [| discriminate]].
    + rewrite Hcalls. cbn [ai_calls after_prompt].
      rewrite <- app_assoc. reflexivity.
    + apply prefix_cons. exact Hprefix.
Qed.

Lemma ai_requests_sent (self : grammar_checker.FrenchGrammarChecker)
    (text : str) (errs : list GrammarError) (w : World) :
  exists sent,
    ai_calls (grammar_checker._get_ai_suggestions self text errs w).2
    = ai_calls w ++ sent
    /\ (errs <> [] -> sent <> []).
Proof.
  rewrite get_ai_suggestions_eq. case_bool_decide as Herrs.
  - exists []. simpl. rewrite app_nil_r. split; [reflexivity | tauto].
  - destruct (for_each_prompt_ai_calls self
                [grammar_checker.first_prompt text;
                 grammar_checker.second_prompt text] [] w)
      as (sent & Hcalls & _ & Hsent).
    exists sent.
    destruct (grammar_checker.for_each_prompt self _ [] w) as [[r | e] w1];
      (split; [exact Hcalls | intros _; apply Hsent; discriminate]).
Qed.

(** X10. The generator is asked exactly when there are errors.  The prompts
    it receives are the first prompt, or the first and then the second, in
    that order and nothing else; with an empty error list it receives
    none, and with a non-empty one it always receives the first. *)
Theorem ai_requests_follow_errors
    (self : grammar_checker.FrenchGrammarChecker) (text : str)
    (errs : list GrammarError) (w : World) :
  exists sent,
    ai_calls (grammar_checker._get_ai_suggestions self text errs w).2
    = ai_calls w ++ sent
    /\ sent `prefix_of` [grammar_checker.first_prompt text;
                         grammar_checker.second_prompt text]
    /\ (sent = [] <-> errs = []).
Proof.
  rewrite get_ai_suggestions_eq. case_bool_decide as Herrs.
  - exists []. simpl. rewrite app_nil_r.
    split; [reflexivity |]. split; [apply prefix_nil | tauto].
  - destruct (for_each_prompt_ai_calls self
                [grammar_checker.first_prompt text;
                 grammar_checker.second_prompt text] [] w)
      as (sent & Hcalls & Hprefix & Hsent).
    exists sent.
    destruct (grammar_checker.for_each_prompt self _ [] w) as [[r | e] w1];
      (split; [exact Hcalls |]); (split; [exact Hprefix |]);
      (split; [intros E; exfalso; apply Hsent; [discriminate | exact E]
              | intros E; contradiction]).
Qed.

(** X11. When both generator calls return, the suggestions are the
    ["generated_text"] of the first element of each output, in prompt
    order; the second call sees the first prompt in its history, and the
    other elements of the outputs are ignored. *)
Theorem ai_suggestions_in_prompt_order
    (self : grammar_checker.FrenchGrammarChecker) (text : str)
    (errs : list GrammarError) (w : World) (t1 t2 : str)
    (out1 out2 : list Generation) :
  errs <> [] ->
  grammar_checker.ai_grammar_model self (ai_calls w)
    (grammar_checker.first_prompt text)
  = Returned (mkGeneration (Some t1) :: out1) ->
  grammar_checker.ai_grammar_model self
    (ai_calls w ++ [grammar_checker.first_prompt text])
    (grammar_checker.second_prompt text)
  = Returned (mkGeneration (Some t2) :: out2) ->
  grammar_checker._get_ai_suggestions self text errs w
  = (Returned [t1; t2],
     after_prompt (after_prompt w (grammar_checker.first_prompt text))
                  (grammar_checker.second_prompt text)).
Proof.
  intros Herrs H1 H2. rewrite get_ai_suggestions_eq.
  rewrite bool_decide_eq_false_2 by exact Herrs.
  rewrite for_each_prompt_cons, H1. cbn [generated_text].
  rewrite for_each_prompt_cons. cbn [ai_calls after_prompt].
  rewrite H2. reflexivity.
Qed.

Lemma ai_suggestions_in_prompt_order_witness :
  (grammar_checker._get_ai_suggestions service_with_ai
     (u "Je mange rapidement") [error_petit] world0).1
  = Returned [u "Je mange souvent."; u "Je mange souvent."].
Proof.
  rewrite (ai_suggestions_in_prompt_order service_with_ai
             (u "Je mange rapidement") [error_petit] world0
             (u "Je mange souvent.") (u "Je mange souvent.") [] []).
  - reflexivity.
  - discriminate.
  - reflexivity.
  - reflexivity.
Defined.

(** X12. A generator output without a first element, or whose first element
    has no ["generated_text"], is handled like a failure of the generator:
    the lookup error is caught, one line is printed, the second prompt is
    never sent and the suggestions are empty. *)
Theorem ai_malformed_output_gives_no_suggestion
    (self : grammar_checker.FrenchGrammarChecker) (text : str)
    (errs : list GrammarError) (w : World) (out : list Generation) :
  errs <> [] ->
  grammar_checker.ai_grammar_model self (ai_calls w)
    (grammar_checker.first_prompt text) = Returned []
  \/ grammar_checker.ai_grammar_model self (ai_calls w)
       (grammar_checker.first_prompt text)
     = Returned (mkGeneration None :: out) ->
  exists line,
    grammar_checker._get_ai_suggestions self text errs w
    = (Returned [],
       after_print (after_prompt w (grammar_checker.first_prompt text))
                   [line])
    /\ (line = u "AI suggestion failed: list index out of range"
        \/ line = u "AI suggestion failed: 'generated_text'").
Proof.
  intros Herrs Hout. rewrite get_ai_suggestions_eq.
  rewrite bool_decide_eq_false_2 by exact Herrs.
  rewrite for_each_prompt_cons.
  destruct Hout as [-> | ->]; cbn [generated_text];
    eexists; (split; [reflexivity |]); [left | right]; reflexivity.
Qed.

Lemma ai_malformed_output_gives_no_suggestion_witness :
  exists line,
    grammar_checker._get_ai_suggestions
      (grammar_checker.mkFrenchGrammarChecker checker_own_categories
         (fun _ _ => Returned []) (parser_always doc_no_violation))
      (u "Je mange rapidement") [error_petit] world0
    = (Returned [],
       after_print
         (after_prompt world0
            (grammar_checker.first_prompt (u "Je mange rapidement")))
         [line]).
Proof.
  destruct (ai_malformed_output_gives_no_suggestion
              (grammar_checker.mkFrenchGrammarChecker checker_own_categories
                 (fun _ _ => Returned []) (parser_always doc_no_violation))
              (u "Je mange rapidement") [error_petit] world0 [])
    as (line & Hrun & _).
  - discriminate.
  - left. reflexivity.
  - exists line. exact Hrun.
Defined.

(* ================================================================== *)
(** * Further properties: the assembled result *)
(* ================================================================== *)

Lemma generate_stats_returns (errors : list GrammarError) (w : World) :
  exists s,
    grammar_checker._generate_stats errors w = (Returned s, w)
    /\ grammar_checker.total_errors s = Z.of_nat (length errors).
Proof.
  unfold grammar_checker._generate_stats, bind.
  destruct (count_by_type_counts errors
              (list_to_map (map (fun rule_type => (french_label rule_type, 0))
                                RuleType_members))
              (fun _ => 0) w)
    as (by_type' & Hrun & _).
  { intros t. destruct t; vm_compute; reflexivity. }
  rewrite Hrun. eexists. split; reflexivity.
Qed.

(** The stages of [check] on a text that is not blank. *)
Lemma assembler_check_eq (utils_nlp : Pipeline)
    (self : grammar_checker.FrenchGrammarChecker) (text : str) (w : World) :
  strip text <> [] ->
  grammar_checker.check utils_nlp self text w
  = match rules.check (grammar_checker.rule_checker self) text w with
    | (Raised e, w1) => (Raised e, w1)
    | (Returned errs, w1) =>
      match grammar_checker._get_ai_suggestions self text errs w1 with
      | (Raised e, w2) => (Raised e, w2)
      | (Returned suggestions, w2) =>
        match utils_nlp (parser_calls w2) text with
        | Raised e => (Raised e, after_parse w2 text)
        | Returned doc =>
          match (grammar_checker._generate_stats errs world0).1 with
          | Raised e => (Raised e, after_parse w2 text)
          | Returned st =>
            (Returned
               {| grammar_checker.original_text := text;
                  grammar_checker.errors := errs;
                  grammar_checker.structure := map token_info doc;
                  grammar_checker.ai_suggestions := suggestions;
                  grammar_checker.stats := st |},
             after_parse w2 text)
          end
        end
      end
    end.
Proof.
  intros Hblank. unfold grammar_checker.check.
  rewrite bool_decide_eq_false_2 by exact Hblank.
  unfold bind at 1.
  destruct (rules.check _ text w) as [[errs | e] w1]; [| reflexivity].
  unfold bind at 1.
  destruct (grammar_checker._get_ai_suggestions self text errs w1)
    as [[suggestions | e] w2]; [| reflexivity].
  unfold bind at 1, analyze_sentence_structure.
  unfold bind at 1, call_pipeline. fold (after_parse w2 text).
  destruct (utils_nlp (parser_calls w2) text) as [doc | e]; [| reflexivity].
  unfold ret at 1. unfold bind. rewrite generate_stats_pure.
  destruct (grammar_checker._generate_stats errs world0).1; reflexivity.
Qed.

(** What a returned result of [check] on a non-blank text is made of. *)
Lemma assembler_check_returned (utils_nlp : Pipeline)
    (self : grammar_checker.FrenchGrammarChecker) (text : str)
    (w w' : World) (r : grammar_checker.GrammarCheckResult) :
  strip text <> [] ->
  grammar_checker.check utils_nlp self text w = (Returned r, w') ->
  exists errs w1 suggestions w2 doc st,
    rules.check (grammar_checker.rule_checker self) text w
    = (Returned errs, w1)
    /\ grammar_checker._get_ai_suggestions self text errs w1
       = (Returned suggestions, w2)
    /\ utils_nlp (parser_calls w1) text = Returned doc
    /\ grammar_checker.total_errors st = Z.of_nat (length errs)
    /\ w' = after_parse w2 text
    /\ r = {| grammar_checker.original_text := text;
              grammar_checker.errors := errs;
              grammar_checker.structure := map token_info doc;
              grammar_checker.ai_suggestions := suggestions;
              grammar_checker.stats := st |}.
Proof.
  intros Hblank. rewrite (assembler_check_eq _ _ _ _ Hblank).
  destruct (rules.check _ text w) as [[errs | e] w1]; [| discriminate].
  destruct (get_ai_suggestions_total self text errs w1)
    as (suggestions & w2 & Hai & Hparser).
  rewrite Hai, Hparser.
  destruct (utils_nlp (parser_calls w1) text) as [doc | e] eqn:Hdoc;
    [| discriminate].
  destruct (generate_stats_returns errs world0) as (st & Hst & Htotal).
  rewrite Hst. cbn [fst]. intros [= <- <-].
  exists errs, w1, suggestions, w2, doc, st. conjuncts.
Qed.

(** X13. On a text that is not blank, when both pipelines return, [check]
    returns a result holding the text itself, the errors of the rule
    checker, one structure entry per token of the second parse, and a total
    equal to the number of errors.  The text is parsed twice: once by the
    rule checker's pipeline and once more by the pipeline of [utils]. *)
Theorem check_assembles_the_result (utils_nlp : Pipeline)
    (self : grammar_checker.FrenchGrammarChecker) (text : str) (w : World)
    (doc1 doc2 : Doc) :
  strip text <> [] ->
  nlp (grammar_checker.rule_checker self) (parser_calls w) text
  = Returned doc1 ->
  utils_nlp (parser_calls w ++ [text]) text = Returned doc2 ->
  exists r w',
    grammar_checker.check utils_nlp self text w = (Returned r, w')
    /\ grammar_checker.original_text r = text
    /\ grammar_checker.errors r
       = sorted start_pos
           (collected (dict_values
                         (_rules (grammar_checker.rule_checker self)))
                      doc1 text)
    /\ grammar_checker.structure r = map token_info doc2
    /\ grammar_checker.total_errors (grammar_checker.stats r)
       = Z.of_nat (length (grammar_checker.errors r))
    /\ parser_calls w' = parser_calls w ++ [text; text].
Proof.
  intros Hblank Hdoc1 Hdoc2.
  rewrite (assembler_check_eq _ _ _ _ Hblank), check_eq, Hdoc1.
  set (errs := sorted start_pos _).
  set (w1 := after_print _ _).
  destruct (get_ai_suggestions_total self text errs w1)
    as (suggestions & w2 & Hai & Hparser).
  rewrite Hai, Hparser. subst w1. cbn [parser_calls after_print after_parse].
  rewrite Hdoc2.
  destruct (generate_stats_returns errs world0) as (st & Hst & Htotal).
  rewrite Hst. cbn [fst].
  eexists _, _. split; [reflexivity |]. cbn.
  repeat split; try assumption.
  rewrite Hparser. cbn. rewrite <- app_assoc. reflexivity.
Qed.

Lemma check_assembles_the_result_witness :
  exists r w',
    grammar_checker.check (parser_always doc_with_full_stop) service_with_ai
      (u "Je mange rapidement") world0
    = (Returned r, w')
    /\ grammar_checker.original_text r = u "Je mange rapidement"
    /\ parser_calls w'
       = [u "Je mange rapidement"; u "Je mange rapidement"].
Proof.
  destruct (check_assembles_the_result (parser_always doc_with_full_stop)
              service_with_ai (u "Je mange rapidement") world0
              doc_no_violation doc_with_full_stop)
    as (r & w' & Hrun & Htext & _ & _ & _ & Hcalls).
  - vm_compute. discriminate.
  - reflexivity.
  - reflexivity.
  - exists r, w'. repeat split; assumption.
Defined.

(** X14. Every result [check] returns, for a blank text or not, is
    consistent: it holds the text that was checked; its total is the number
    of its errors; its errors are ordered by start offset and all refer to
    the checked text; it has no suggestion at all or exactly two; and
    without errors it has no suggestion and the generator was not asked. *)
Theorem check_result_is_consistent (utils_nlp : Pipeline)
    (self : grammar_checker.FrenchGrammarChecker) (text : str)
    (w w' : World) (r : grammar_checker.GrammarCheckResult) :
  grammar_checker.check utils_nlp self text w = (Returned r, w') ->
  grammar_checker.original_text r = text
  /\ grammar_checker.total_errors (grammar_checker.stats r)
     = Z.of_nat (length (grammar_checker.errors r))
  /\ StronglySorted by_start (grammar_checker.errors r)
  /\ Forall (fun e => source_text e = text) (grammar_checker.errors r)
  /\ (length (grammar_checker.ai_suggestions r) = 0%nat
      \/ length (grammar_checker.ai_suggestions r) = 2%nat)
  /\ (grammar_checker.errors r = [] ->
      grammar_checker.ai_suggestions r = [] /\ ai_calls w' = ai_calls w).
Proof.
  intros Hrun.
  destruct (decide (strip text = [])) as [Hblank | Hblank].
  - apply strip_nil in Hblank.
    rewrite (check_whitespace _ _ _ _ Hblank) in Hrun.
    injection Hrun as <- <-. cbn.
    repeat split; auto; constructor.
  - destruct (assembler_check_returned _ _ _ _ _ _ Hblank Hrun)
      as (errs & w1 & suggestions & w2 & doc & st & Hrules & Hai & _
          & Htotal & -> & ->).
    cbn. split; [reflexivity |]. split; [exact Htotal |].
    pose proof (check_ai_calls (grammar_checker.rule_checker self) text w)
      as Hcalls.
    rewrite Hrules in Hcalls. cbn [snd] in Hcalls.
    apply check_returned in Hrules as (doc1 & Hdoc1 & ->).
    split; [apply sorted_by_key |]. split.
    { apply Forall_forall. intros e He.
      apply elem_of_sorted, elem_of_collected in He
        as (rule & produced & e0 & _ & _ & _ & ->).
      reflexivity. }
    rewrite get_ai_suggestions_eq in Hai. split.
    + case_bool_decide as Hnone.
      * injection Hai as <- _. left. reflexivity.
      * destruct (grammar_checker.for_each_prompt self _ [] w1)
          as [[results | e] w3] eqn:Hloop.
        -- injection Hai as <- _. right.
           apply for_each_prompt_length in Hloop. exact Hloop.
        -- injection Hai as <- _. left. reflexivity.
    + intros Hnone. rewrite Hnone in Hai.
      rewrite bool_decide_eq_true_2 in Hai by reflexivity.
      injection Hai as <- <-. split; [reflexivity | exact Hcalls].
Qed.

Lemma check_result_is_consistent_witness :
  exists r w',
    grammar_checker.check (parser_always doc_with_full_stop) service_with_ai
      (u "Je mange rapidement") world0
    = (Returned r, w')
    /\ length (grammar_checker.ai_suggestions r) = 2%nat
    /\ grammar_checker.total_errors (grammar_checker.stats r) = 3.
Proof.
  eexists _, _. split; [vm_compute; reflexivity |].
  split; [reflexivity |].
  refine (proj1 (proj2 (check_result_is_consistent
                          (parser_always doc_with_full_stop) service_with_ai
                          (u "Je mange rapidement") world0 _ _ _))).
  vm_compute. reflexivity.
Defined.

(** X15. For a result returned by [check], [to_dict] lists one entry per
    error, in the same order, with the French label of the error's category
    and the error's own offsets; its error count is the total of the stats;
    and the context of each entry is the checked text with the two markers
    around the entry's offsets, whatever source text or context the rule
    had given the error. *)
Theorem to_dict_of_checked_result (utils_nlp : Pipeline)
    (self : grammar_checker.FrenchGrammarChecker) (text : str)
    (w w' : World) (r : grammar_checker.GrammarCheckResult) :
  grammar_checker.check utils_nlp self text w = (Returned r, w') ->
  d_text (to_dict r) = text
  /\ d_error_count (to_dict r)
     = grammar_checker.total_errors (grammar_checker.stats r)
  /\ length (d_errors (to_dict r)) = length (grammar_checker.errors r)
  /\ (forall i e,
        grammar_checker.errors r !! i = Some e ->
        exists entry,
          d_errors (to_dict r) !! i = Some entry
          /\ entry_type entry = french_label (rule_type e)
          /\ entry_start_pos entry = start_pos e
          /\ entry_end_pos entry = end_pos e
          /\ entry_context entry
             = slice text None (Some (start_pos e))
               ++ u ">>>"
               ++ slice text (Some (start_pos e)) (Some (end_pos e))
               ++ u "<<<"
               ++ slice text (Some (end_pos e)) None).
Proof.
  intros Hrun.
  assert (Hcons :
    grammar_checker.original_text r = text
    /\ grammar_checker.total_errors (grammar_checker.stats r)
       = Z.of_nat (length (grammar_checker.errors r))
    /\ Forall (fun e => source_text e = text) (grammar_checker.errors r)).
  { destruct (decide (strip text = [])) as [Hblank | Hblank].
    - apply strip_nil in Hblank.
      rewrite (check_whitespace _ _ _ _ Hblank) in Hrun.
      injection Hrun as <- <-. cbn. repeat split; constructor.
    - destruct (assembler_check_returned _ _ _ _ _ _ Hblank Hrun)
        as (errs & w1 & suggestions & w2 & doc & st & Hrules & _ & _
            & Htotal & _ & ->).
      cbn. split; [reflexivity |]. split; [exact Htotal |].
      apply check_returned in Hrules as (doc1 & _ & ->).
      apply Forall_forall. intros e He.
      apply elem_of_sorted, elem_of_collected in He
        as (rule & produced & e0 & _ & _ & _ & ->).
      reflexivity. }
  destruct Hcons as (Htext & Htotal & Hsource).
  unfold to_dict. cbn.
  split; [exact Htext |]. split; [symmetry; exact Htotal |].
  split; [apply length_map |].
  intros i e He. exists (error_entry e). split.
  - change (map error_entry (grammar_checker.errors r))
      with (error_entry <$> grammar_checker.errors r).
    rewrite list_lookup_fmap, He. reflexivity.
  - rewrite Forall_forall in Hsource.
    specialize (Hsource e (list_elem_of_lookup_2 _ _ _ He)).
    unfold error_entry, highlighted. cbn. rewrite Hsource.
    repeat split.
Qed.

Lemma to_dict_of_checked_result_witness :
  d_error_count
    (to_dict
       {| grammar_checker.original_text := u "Je mange rapidement";
          grammar_checker.errors :=
            [ set_source_text (error_at AGREEMENT "gender" 0 2)
                              (u "Je mange rapidement");
              set_source_text (error_at ADVERB "adverb" 3 8)
                              (u "Je mange rapidement");
              set_source_text (error_at AGREEMENT "number" 3 8)
                              (u "Je mange rapidement") ];
          grammar_checker.structure := map token_info doc_with_full_stop;
          grammar_checker.ai_suggestions := [];
          grammar_checker.stats :=
            {| grammar_checker.total_errors := 3;
               grammar_checker.by_type :=
                 <[french_label AGREEMENT := 2]>
                   (<[french_label ADVERB := 1]>
                      (list_to_map
                         (map (fun t => (french_label t, 0))
                              RuleType_members))) |} |})
  = 3.
Proof.
  refine (proj1 (proj2 (to_dict_of_checked_result
                          (parser_always doc_with_full_stop)
                          service_without_ai (u "Je mange rapidement")
                          world0 _ _ _))).
  vm_compute. reflexivity.
Defined.

Lemma sorted_nil_inv {A} (key : A -> Z) (l : list A) :
  sorted key l = [] -> l = [].
Proof.
  intros H. apply Permutation_nil_r. rewrite <- H.
  symmetry. apply sorted_Permutation.
Qed.

(** X16. On a text that is not blank, a failure of either parse is the
    outcome of [check].  When the rule checker's pipeline raises, nothing
    else has been done.  When the second parse (the one for the structure)
    raises, the errors already found are lost with it, and if there were
    any, the generator had already been asked. *)
Theorem check_propagates_parser_failures (utils_nlp : Pipeline)
    (self : grammar_checker.FrenchGrammarChecker) (text : str) (w : World) :
  strip text <> [] ->
  (forall e,
      nlp (grammar_checker.rule_checker self) (parser_calls w) text
      = Raised e ->
      grammar_checker.check utils_nlp self text w
      = (Raised e, after_parse w text))
  /\ (forall doc e,
        nlp (grammar_checker.rule_checker self) (parser_calls w) text
        = Returned doc ->
        utils_nlp (parser_calls w ++ [text]) text = Raised e ->
        (grammar_checker.check utils_nlp self text w).1 = Raised e
        /\ (collected (dict_values
                         (_rules (grammar_checker.rule_checker self)))
                      doc text <> [] ->
            ai_calls (grammar_checker.check utils_nlp self text w).2
            <> ai_calls w)).
Proof.
  intros Hblank. rewrite (assembler_check_eq _ _ _ _ Hblank), check_eq.
  split.
  - intros e ->. reflexivity.
  - intros doc e -> Hutils.
    set (errs := sorted start_pos _).
    set (w1 := after_print _ _).
    destruct (ai_requests_sent self text errs w1)
      as (sent & Hcalls & Hsent).
    destruct (get_ai_suggestions_total self text errs w1)
      as (suggestions & w2 & Hai & Hparser).
    rewrite Hai in Hcalls |- *. rewrite Hparser.
    subst w1. cbn [parser_calls ai_calls after_print after_parse snd]
      in Hcalls |- *.
    rewrite Hutils. cbn. split; [reflexivity |].
    intros Hsome. rewrite Hcalls.
    intros Heq. apply Hsent.
    + intros Hnone. apply Hsome. subst errs.
      apply sorted_nil_inv in Hnone. exact Hnone.
    + rewrite <- (app_nil_r (ai_calls w)) in Heq at 2.
      apply app_inv_head in Heq. exact Heq.
Qed.

Lemma check_propagates_parser_failures_witness :
  grammar_checker.check (parser_always doc_with_full_stop)
    (grammar_checker.mkFrenchGrammarChecker
       (__init__ (parser_raising "model not loaded")
          (rule_reporting ADVERB []) (rule_reporting CONJUGATION [])
          (rule_reporting AGREEMENT []) (rule_reporting STRUCTURE []))
       generator_echo (parser_always doc_no_violation))
    (u "Je mange rapidement") world0
  = (Raised (Exception (u "model not loaded")),
     after_parse world0 (u "Je mange rapidement")).
Proof.
  refine (proj1 (check_propagates_parser_failures
                   (parser_always doc_with_full_stop) _
                   (u "Je mange rapidement") world0 _) _ _).
  - vm_compute. discriminate.
  - reflexivity.
Defined.

(* ================================================================== *)
(** * Further properties: the POS table and the sentence structure *)
(* ================================================================== *)

Lemma french_pos_tags_entry (tag label : str) :
  constants.FRENCH_POS_TAGS !! tag = Some label ->
  constants.FRENCH_POS_TAGS !! label = None
  /\ (label = u "Sujet" <-> tag = u "SUBJ")
  /\ tag <> u "Sujet".
Proof.
  intros Hentry. unfold constants.FRENCH_POS_TAGS in Hentry.
  apply elem_of_list_to_map_2 in Hentry.
  repeat (apply elem_of_cons in Hentry as [Hentry | Hentry];
          [ injection Hentry as -> ->;
            split; [vm_compute; reflexivity |];
            split; [split; intros H; vm_compute in H |- *; congruence
                   | intros H; vm_compute in H; discriminate]
          |]).
  apply elem_of_nil in Hentry. contradiction.
Qed.

(** X17. Translating a tag twice is translating it once: a tag of the table
    becomes its French term, a tag outside the table is returned as it is,
    and no French term of the table is itself a tag of the table. *)
Theorem get_french_pos_tag_idempotent (spacy_tag : str) :
  get_french_pos_tag (get_french_pos_tag spacy_tag)
  = get_french_pos_tag spacy_tag
  /\ (constants.FRENCH_POS_TAGS !! spacy_tag = None ->
      get_french_pos_tag spacy_tag = spacy_tag).
Proof.
  unfold get_french_pos_tag.
  destruct (constants.FRENCH_POS_TAGS !! spacy_tag) as [label |] eqn:Hentry;
    cbn [default from_option id].
  - apply french_pos_tags_entry in Hentry as (Hnone & _).
    rewrite Hnone. split; [reflexivity | discriminate].
  - rewrite Hentry. split; reflexivity.
Qed.

Lemma french_pos_is_sujet (token : Token) :
  info_french_pos (token_info token) = u "Sujet"
  <-> is_subject token
      \/ pos_ token = u "SUBJ" \/ pos_ token = u "Sujet".
Proof.
  unfold token_info, is_subject, str_in. cbn [info_french_pos].
  case_bool_decide as Hsubj; [tauto |].
  unfold get_french_pos_tag.
  destruct (constants.FRENCH_POS_TAGS !! pos_ token) as [label |] eqn:Hentry;
    cbn [default from_option id].
  - apply french_pos_tags_entry in Hentry as (_ & Hiff & Hne). tauto.
  - split; [tauto |]. intros [? | [Hpos | Hpos]]; [tauto | | exact Hpos].
    rewrite Hpos in Hentry. vm_compute in Hentry. discriminate.
Qed.

(** X18. When the parser returns a document, [analyze_sentence_structure]
    returns one entry per token, in document order, each with the text,
    lemma and POS of its token; and an entry is labelled "Sujet" exactly
    when its token's dependency is nsubj or nsubj:pass, or its POS is
    "SUBJ" or already "Sujet". *)
Theorem analyze_sentence_structure_entries (nlp : Pipeline) (sentence : str)
    (w : World) (doc : Doc) :
  nlp (parser_calls w) sentence = Returned doc ->
  exists structure,
    analyze_sentence_structure nlp sentence w
    = (Returned structure, after_parse w sentence)
    /\ length structure = length doc
    /\ (forall i token,
          doc !! i = Some token ->
          exists info,
            structure !! i = Some info
            /\ info_text info = tok_text token
            /\ info_lemma info = lemma_ token
            /\ info_pos info = pos_ token
            /\ (info_french_pos info = u "Sujet"
                <-> is_subject token
                    \/ pos_ token = u "SUBJ" \/ pos_ token = u "Sujet")).
Proof.
  intros Hdoc. exists (map token_info doc). split; [| split].
  - unfold analyze_sentence_structure, bind, call_pipeline.
    rewrite Hdoc. reflexivity.
  - apply length_map.
  - intros i token Htoken. exists (token_info token). split.
    + unfold Doc in *. change (map token_info doc) with (token_info <$> doc).
      rewrite list_lookup_fmap, Htoken. reflexivity.
    + repeat split; try apply french_pos_is_sujet;
        intros H; apply french_pos_is_sujet; exact H.
Qed.

Lemma analyze_sentence_structure_entries_witness :
  exists structure,
    analyze_sentence_structure (parser_always doc_with_full_stop)
      (u "Je mange.") world0
    = (Returned structure, after_parse world0 (u "Je mange."))
    /\ length structure = 3%nat.
Proof.
  destruct (analyze_sentence_structure_entries
              (parser_always doc_with_full_stop) (u "Je mange.") world0
              doc_with_full_stop)
    as (structure & Hrun & Hlen & _).
  - reflexivity.
  - exists structure. split; [exact Hrun | exact Hlen].
Defined.

(* ================================================================== *)
(** * Further properties: the sentence components *)
(* ================================================================== *)

Lemma dict_get_append {K V : Type} `{EqDecision K}
    (d : dict K (list V)) (k k' : K) (x : V) :
  dict_get (dict_append d k x) k'
  = if decide (k = k')
    then Some (default [] (dict_get d k) ++ [x])
    else dict_get d k'.
Proof.
  unfold dict_append. destruct (decide (k = k')) as [<- | Hne].
  - destruct (dict_get d k) as [l |]; rewrite dict_get_set_same; reflexivity.
  - destruct (dict_get d k) as [l |];
      rewrite dict_get_set_other by congruence; reflexivity.
Qed.

Lemma extract_sentence_components_from (doc : Doc)
    (components : dict str (list Component)) (category : str) :
  dict_get
    (foldl (fun components token =>
              dict_append components (category_of token) (component token))
           components doc)
    category
  = match dict_get components category,
          component <$> filter (fun t => category_of t = category) doc with
    | Some before, added => Some (before ++ added)
    | None, [] => None
    | None, added => Some added
    end.
Proof.
  unfold Doc in *.
  revert components. induction doc as [|token rest IH]; intros components.
  - simpl. destruct (dict_get components category); [| reflexivity].
    rewrite app_nil_r. reflexivity.
  - cbn [foldl]. rewrite IH, dict_get_append, filter_cons.
    destruct (decide (category_of token = category)) as [Hcat | Hcat].
    + rewrite fmap_cons.
      destruct (dict_get components (category_of token)) as [before |] eqn:E;
        rewrite Hcat in E; rewrite E; cbn [default].
      * rewrite <- app_assoc. reflexivity.
      * reflexivity.
    + reflexivity.
Qed.

(** X19. [extract_sentence_components] groups the tokens by category: the
    entry of a category is the list of the components of exactly the tokens
    of that category, in document order, and a category no token has is not
    a key of the result. *)
Theorem extract_sentence_components_groups (doc : Doc) (category : str) :
  dict_get (extract_sentence_components doc) category
  = match filter (fun t => category_of t = category) doc with
    | [] => None
    | tokens => Some (component <$> tokens)
    end.
Proof.
  unfold extract_sentence_components.
  rewrite extract_sentence_components_from. cbn [dict_get].
  destruct (filter _ doc); reflexivity.
Qed.

(** X20. The category of a token never depends on its tag: a subject is
    "Sujet" and any other token gets the French term of its POS.  The test
    for a finite auxiliary only assigns "Auxiliaire", which the table gives
    to every AUX already. *)
Theorem category_of_ignores_the_tag (token : Token) :
  category_of token
  = if bool_decide (is_subject token) then u "Sujet"
    else get_french_pos_tag (pos_ token).
Proof.
  unfold category_of, is_subject, str_in, str_eqb.
  case_bool_decide as Hsubj; [reflexivity |].
  case_bool_decide as Haux; [| reflexivity].
  rewrite Haux. destruct (str_contains _ _); reflexivity.
Qed.

(* ================================================================== *)
(** * Further properties: compound tenses *)
(* ================================================================== *)

(** X21. Only auxiliaries and verbs count: a token that is tagged neither
    AUX nor VERB (an adverb, a pronoun, a negation) can be put into the
    verb phrase, or taken out of it, anywhere, without changing the
    answer. *)
Theorem detect_compound_tenses_ignores_other_tokens
    (before after : list Token) (token : Token) :
  pos_ token <> u "AUX" -> pos_ token <> u "VERB" ->
  detect_compound_tenses (before ++ token :: after)
  = detect_compound_tenses (before ++ after).
Proof.
  intros Haux Hverb. rewrite !detect_compound_tenses_eq.
  rewrite !filter_app.
  rewrite (filter_cons_False is_auxiliary) by exact Haux.
  rewrite (filter_cons_False is_main_verb)
    by (intros (Hpos & _); apply Hverb; exact Hpos).
  reflexivity.
Qed.

Lemma detect_compound_tenses_ignores_other_tokens_witness :
  detect_compound_tenses
    ([tok "ai" "avoir" "AUX" "" "ROOT" 1 1]
     ++ tok "rapidement" "rapidement" "ADV" "" "advmod" 2 1
     :: [tok "mangé" "manger" "VERB" "VerbForm=Part" "xcomp" 3 1])
  = detect_compound_tenses
      ([tok "ai" "avoir" "AUX" "" "ROOT" 1 1]
       ++ [tok "mangé" "manger" "VERB" "VerbForm=Part" "xcomp" 3 1]).
Proof.
  apply (detect_compound_tenses_ignores_other_tokens
           [tok "ai" "avoir" "AUX" "" "ROOT" 1 1]
           [tok "mangé" "manger" "VERB" "VerbForm=Part" "xcomp" 3 1]
           (tok "rapidement" "rapidement" "ADV" "" "advmod" 2 1));
    vm_compute; discriminate.
Defined.

(** X22. No compound tense is detected when the only verbs of the list are
    forms of être or avoir tagged VERB (as in "a été"), nor when the list
    holds three auxiliaries or more. *)
Theorem detect_compound_tenses_none (verb_phrase : list Token) :
  (forall t, t ∈ verb_phrase -> pos_ t = u "VERB" ->
             lemma_ t = u "être" \/ lemma_ t = u "avoir")
  \/ (3 <= length (filter is_auxiliary verb_phrase))%nat ->
  detect_compound_tenses verb_phrase = None.
Proof.
  intros Hcase. rewrite detect_compound_tenses_eq.
  destruct Hcase as [Hverbs | Hmany].
  - rewrite bool_decide_eq_true_2; [reflexivity |].
    right.
    destruct (filter is_main_verb verb_phrase) as [|v r] eqn:E;
      [reflexivity |].
    assert (Hin : v ∈ filter is_main_verb verb_phrase)
      by (rewrite E; apply list_elem_of_here).
    apply list_elem_of_filter in Hin as [(Hpos & Hne1 & Hne2) Hin].
    destruct (Hverbs v Hin Hpos); contradiction.
  - destruct (filter is_auxiliary verb_phrase) as [|a0 [|a1 [|a2 r]]];
      simpl in Hmany; try lia.
    destruct (bool_decide _); reflexivity.
Qed.

Lemma detect_compound_tenses_none_witness :
  detect_compound_tenses
    [ tok "a" "avoir" "AUX" "" "aux" 1 2;
      tok "été" "être" "VERB" "Tense=Past|VerbForm=Part" "ROOT" 2 2 ]
  = None.
Proof.
  apply detect_compound_tenses_none. left.
  intros t Ht Hpos.
  repeat (apply elem_of_cons in Ht as [-> | Ht]);
    [ vm_compute in Hpos; discriminate
    | left; reflexivity
    | apply elem_of_nil in Ht; contradiction ].
Defined.

(* ================================================================== *)
(** * Further properties: adverb placement *)
(* ================================================================== *)

(** X23. Which tokens [validate_adverb_placement] rejects.  A token is
    rejected exactly when it is tagged ADV and either its head is a VERB
    that has a subject among its left children, or its head is an AUX that
    stands before it and [detect_compound_tenses] finds a compound tense in
    that auxiliary followed by the verbs among its right children. *)
Theorem adverb_violation_characterised (doc : Doc) (token : Token) :
  misplaced doc token
  <-> pos_ token = u "ADV"
      /\ ((pos_ (head_of doc token) = u "VERB"
           /\ exists t, t ∈ lefts doc (head_of doc token) /\ is_subject t)
          \/ (pos_ (head_of doc token) = u "AUX"
              /\ (tok_i (head_of doc token) < tok_i token)%nat
              /\ detect_compound_tenses
                   (verb_phrase_of doc (head_of doc token))
                 <> None)).
Proof.
  pose proof (has_left_subject doc (head_of doc token)) as Hsubj.
  unfold misplaced, adverb_violation, verb_phrase_of, str_eqb.
  set (head := head_of doc token) in *.
  set (subject := existsb _ (lefts doc head)) in *.
  case_bool_decide as Hadv; [| split; [congruence | tauto]].
  case_bool_decide as Hverb; cbn [andb].
  - destruct subject eqn:Hs.
    + split; [intros _ | discriminate].
      split; [exact Hadv |]. left. split; [exact Hverb |].
      apply Hsubj. reflexivity.
    + assert (Hno : ~ exists t, t ∈ lefts doc head /\ is_subject t).
      { intros H. apply Hsubj in H. discriminate. }
      assert (Hnaux : pos_ head <> u "AUX").
      { rewrite Hverb. vm_compute. discriminate. }
      rewrite bool_decide_eq_false_2 by exact Hnaux. cbn [andb].
      split; [congruence | tauto].
  - case_bool_decide as Haux; cbn [andb];
      [| split; [congruence | tauto]].
    destruct (Nat.ltb_spec (tok_i head) (tok_i token)) as [Hlt | Hge];
      [| split; [congruence | intros (_ & [? | (_ & ? & _)]); [tauto | lia]]].
    destruct (detect_compound_tenses _) as [tense |] eqn:Htense.
    + apply detect_compound_tenses_nonempty in Htense.
      rewrite bool_decide_eq_false_2 by exact Htense.
      split; [intros _ | discriminate].
      split; [exact Hadv |]. right. repeat split; try assumption.
      discriminate.
    + split; [congruence |].
      intros (_ & [(? & _) | (_ & _ & ?)]); [contradiction | congruence].
Qed.

(** X24. The test about separating subject and verb never looks at where
    the adverb stands.  A sentence is declared invalid as soon as one of
    its adverbs is attached to a verb that has a subject on its left,
    whatever the position of the adverb: also when it follows the verb, as
    in "Je mange rapidement" parsed as subject, verb, adverb. *)
Theorem adverb_after_the_verb_is_reported (nlp : Pipeline) (sentence : str)
    (w : World) (doc : Doc) (token : Token) :
  nlp (parser_calls w) sentence = Returned doc ->
  token ∈ doc ->
  pos_ token = u "ADV" ->
  pos_ (head_of doc token) = u "VERB" ->
  (exists t, t ∈ lefts doc (head_of doc token) /\ is_subject t) ->
  exists msg,
    (validate_adverb_placement nlp sentence w).1 = Returned (false, Some msg).
Proof.
  intros Hdoc Hin Hadv Hverb Hsubj.
  assert (Hviol : adverb_violation doc token <> None).
  { pose proof (has_left_subject doc (head_of doc token)) as Hs.
    apply Hs in Hsubj.
    unfold adverb_violation, str_eqb.
    rewrite bool_decide_eq_true_2 by exact Hadv.
    rewrite bool_decide_eq_true_2 by exact Hverb.
    rewrite Hsubj. discriminate. }
  unfold validate_adverb_placement, bind, call_pipeline. rewrite Hdoc.
  cbn [fst ret].
  destruct (for_each_token_first doc doc)
    as [[_ Hall] | (pre & first & post & msg & _ & _ & _ & Hres)].
  - rewrite Forall_forall in Hall. specialize (Hall token Hin).
    contradiction.
  - exists msg. rewrite Hres. reflexivity.
Qed.

Lemma adverb_after_the_verb_is_reported_witness :
  exists msg,
    (validate_adverb_placement (parser_always doc_adverb_after_verb)
       (u "Je mange rapidement") world0).1
    = Returned (false, Some msg).
Proof.
  apply (adverb_after_the_verb_is_reported
           (parser_always doc_adverb_after_verb) (u "Je mange rapidement")
           world0 doc_adverb_after_verb
           (tok "rapidement" "rapidement" "ADV" "" "advmod" 2 1)).
  - reflexivity.
  - apply list_elem_of_further, list_elem_of_further, list_elem_of_here.
  - reflexivity.
  - reflexivity.
  - exists (tok "Je" "je" "PRON" "Number=Sing|Person=1" "nsubj" 0 1).
    split; [vm_compute; apply list_elem_of_here |].
    unfold is_subject. apply list_elem_of_here.
Defined.

(* ================================================================== *)
(** * Further properties: the registry of the [rules] package *)
(* ================================================================== *)

Lemma package_for_each_rule_returns
    (items : list (cors_rules.RuleType * cors_rules.Rule)) (doc : Doc)
    (errors : list cors_rules.GrammarError) (w : World) :
  Forall (fun item => raises (item.2 doc) = false) items ->
  cors_rules.for_each_rule items doc errors w
  = (Returned
       (errors
        ++ concat (map (fun item =>
                          match item.2 doc with
                          | Returned produced => produced
                          | Raised _ => []
                          end) items)),
     w).
Proof.
  intros Hall. revert errors.
  induction Hall as [|[k rule] rest Hrule _ IH]; intros errors.
  - cbn. rewrite app_nil_r. reflexivity.
  - cbn [cors_rules.for_each_rule map concat snd] in *.
    destruct (rule doc) as [l | e]; [| discriminate].
    rewrite IH, app_assoc. reflexivity.
Qed.

Lemma package_for_each_rule_raises
    (pre : list (cors_rules.RuleType * cors_rules.Rule))
    (k : cors_rules.RuleType) (rule : cors_rules.Rule)
    (post : list (cors_rules.RuleType * cors_rules.Rule))
    (doc : Doc) (errors : list cors_rules.GrammarError) (w : World)
    (e : exn) :
  Forall (fun item => raises (item.2 doc) = false) pre ->
  rule doc = Raised e ->
  cors_rules.for_each_rule (pre ++ (k, rule) :: post) doc errors w
  = (Raised e, w).
Proof.
  intros Hpre Hraise. revert errors.
  induction Hpre as [|[k' rule'] rest Hrule _ IH]; intros errors.
  - cbn. rewrite Hraise. reflexivity.
  - cbn [app cors_rules.for_each_rule snd] in *.
    destruct (rule' doc) as [l | e']; [| discriminate].
    apply IH.
Qed.

(** X25. The registry of the [rules] package has no failure boundary and
    does not sort.  When no rule raises, [check_sentence] returns the
    outputs of the rules one after the other, in registry order; as soon as
    one rule raises, that exception is the outcome of [check_sentence] and
    the errors found by the rules before it are lost. *)
Theorem check_sentence_aborts_on_a_failing_rule
    (self : cors_rules.FrenchGrammarRules) (sentence : str) (w : World)
    (doc : Doc) :
  cors_rules.nlp self (parser_calls w) sentence = Returned doc ->
  (Forall (fun item => raises (item.2 doc) = false) (cors_rules.rules self) ->
   cors_rules.check_sentence self sentence w
   = (Returned
        (concat (map (fun item =>
                        match item.2 doc with
                        | Returned produced => produced
                        | Raised _ => []
                        end) (cors_rules.rules self))),
      after_parse w sentence))
  /\ (forall pre k rule post e,
        cors_rules.rules self = pre ++ (k, rule) :: post ->
        Forall (fun item => raises (item.2 doc) = false) pre ->
        rule doc = Raised e ->
        cors_rules.check_sentence self sentence w
        = (Raised e, after_parse w sentence)).
Proof.
  intros Hdoc.
  unfold cors_rules.check_sentence, bind, call_pipeline.
  rewrite Hdoc. fold (after_parse w sentence). split.
  - intros Hall.
    rewrite (package_for_each_rule_returns _ doc [] (after_parse w sentence)
               Hall).
    reflexivity.
  - intros pre k rule post e -> Hpre Hraise.
    rewrite (package_for_each_rule_raises pre k rule post doc []
               (after_parse w sentence) e Hpre Hraise).
    reflexivity.
Qed.

Lemma check_sentence_aborts_on_a_failing_rule_witness :
  cors_rules.check_sentence package_failing_rule (u "Je mange rapidement")
    world0
  = (Raised (Exception (u "no paradigm")),
     after_parse world0 (u "Je mange rapidement")).
Proof.
  refine (proj2 (check_sentence_aborts_on_a_failing_rule package_failing_rule
                   (u "Je mange rapidement") world0 doc_no_violation _)
            [(cors_rules.ADVERB, _)] cors_rules.CONJUGATION _
            [(cors_rules.AGREEMENT, _); (cors_rules.STRUCTURE, _)]
            (Exception (u "no paradigm")) _ _ _).
  - reflexivity.
  - reflexivity.
  - repeat constructor.
  - reflexivity.
Defined.

(* ================================================================== *)
(** * Further properties: batches *)
(* ================================================================== *)

Lemma check_returns_the_text (utils_nlp : Pipeline)
    (self : grammar_checker.FrenchGrammarChecker) (text : str)
    (w w' : World) (r : grammar_checker.GrammarCheckResult) :
  grammar_checker.check utils_nlp self text w = (Returned r, w') ->
  grammar_checker.original_text r = text
  /\ grammar_checker.total_errors (grammar_checker.stats r)
     = Z.of_nat (length (grammar_checker.errors r)).
Proof.
  intros Hrun.
  destruct (decide (strip text = [])) as [Hblank | Hblank].
  - apply strip_nil in Hblank.
    rewrite (check_whitespace _ _ _ _ Hblank) in Hrun.
    injection Hrun as <- <-. split; reflexivity.
  - destruct (assembler_check_returned _ _ _ _ _ _ Hblank Hrun)
      as (errs & w1 & suggestions & w2 & doc & st & _ & _ & _
          & Htotal & _ & ->).
    split; [reflexivity | exact Htotal].
Qed.

Lemma for_each_Forall2 {A B : Type} (f : A -> M B) (P : A -> B -> Prop)
    (xs : list A) :
  (forall x w y w', f x w = (Returned y, w') -> P x y) ->
  forall w ys w',
    for_each f xs w = (Returned ys, w') -> Forall2 P xs ys.
Proof.
  intros Hf. induction xs as [|x rest IH]; intros w ys w'.
  - intros [= <- _]. constructor.
  - cbn [for_each]. unfold bind at 1.
    destruct (f x w) as [[y | e] w1] eqn:Hx; [| discriminate].
    unfold bind at 1.
    destruct (for_each f rest w1) as [[ys' | e] w2] eqn:Hrest;
      [| discriminate].
    intros [= <- _]. constructor; [eapply Hf; exact Hx |].
    eapply IH. exact Hrest.
Qed.

(** X26. When [batch_check] returns, it returns one result per text, in the
    order of the texts, and each result holds its own text and a total
    equal to the number of its errors. *)
Theorem batch_check_one_result_per_text (utils_nlp : Pipeline)
    (self : grammar_checker.FrenchGrammarChecker) (texts : list str)
    (w w' : World) (results : list grammar_checker.GrammarCheckResult) :
  batch_check utils_nlp self texts w = (Returned results, w') ->
  length results = length texts
  /\ Forall2 (fun text r =>
                grammar_checker.original_text r = text
                /\ grammar_checker.total_errors (grammar_checker.stats r)
                   = Z.of_nat (length (grammar_checker.errors r)))
             texts results.
Proof.
  unfold batch_check. unfold bind at 1.
  destruct (pipe _ texts w) as [[docs | e] w1]; [| discriminate].
  intros Hrun.
  assert (H2 : Forall2 (fun text r =>
                grammar_checker.original_text r = text
                /\ grammar_checker.total_errors (grammar_checker.stats r)
                   = Z.of_nat (length (grammar_checker.errors r)))
             texts results).
  { eapply for_each_Forall2; [| exact Hrun].
    intros text w0 r w0' Hcheck.
    eapply check_returns_the_text. exact Hcheck. }
  split; [| exact H2].
  symmetry. eapply Forall2_length. exact H2.
Qed.

Lemma batch_check_one_result_per_text_witness :
  exists results w',
    batch_check (parser_always doc_with_full_stop) service_with_ai
      [u "Je mange rapidement"; u "  "] world0
    = (Returned results, w')
    /\ length results = 2%nat.
Proof.
  eexists _, _. split; [vm_compute; reflexivity |].
  refine (proj1 (batch_check_one_result_per_text
                   (parser_always doc_with_full_stop) service_with_ai
                   [u "Je mange rapidement"; u "  "] world0 _ _ _)).
  vm_compute. reflexivity.
Defined.

Lemma for_each_blank (utils_nlp : Pipeline)
    (self : grammar_checker.FrenchGrammarChecker) (texts : list str)
    (w : World) :
  Forall all_whitespace texts ->
  for_each (grammar_checker.check utils_nlp self) texts w
  = (Returned (map grammar_checker._empty_result texts), w).
Proof.
  induction 1 as [|text rest Htext _ IH]; [reflexivity |].
  cbn [for_each map]. unfold bind at 1.
  rewrite (check_whitespace _ _ _ _ Htext).
  unfold bind. rewrite IH. reflexivity.
Qed.

Lemma pipe_footprint (pipeline : Pipeline) (texts : list str)
    (w w' : World) (o : Outcome (list Doc)) :
  pipe pipeline texts w = (o, w') ->
  ai_calls w' = ai_calls w
  /\ stdout w' = stdout w
  /\ (forall docs, o = Returned docs ->
                   parser_calls w' = parser_calls w ++ texts).
Proof.
  unfold pipe. revert w w' o.
  induction texts as [|text rest IH]; intros w w' o.
  - intros [= <- <-]. rewrite app_nil_r.
    split; [reflexivity |]. split; [reflexivity |]. reflexivity.
  - cbn [for_each]. unfold bind at 1, call_pipeline at 1.
    fold (after_parse w text).
    destruct (pipeline (parser_calls w) text) as [doc | e].
    + unfold bind at 1.
      destruct (for_each (call_pipeline pipeline) rest (after_parse w text))
        as [[docs | e] w1] eqn:Hrest;
        apply IH in Hrest as (Hai & Hout & Hcalls);
        intros [= <- <-];
        (split; [exact Hai |]); (split; [exact Hout |]).
      * intros docs' _. rewrite (Hcalls docs eq_refl).
        cbn [parser_calls after_parse]. rewrite <- app_assoc. reflexivity.
      * discriminate.
    + intros [= <- <-].
      split; [reflexivity |]. split; [reflexivity |]. discriminate.
Qed.

(** X27. A batch of blank texts.  [batch_check] still hands every text to
    its own pipeline once, which [check] alone would not do; when that
    returns, each result is the empty result of its text, the generator is
    not asked and nothing is printed. *)
Theorem batch_check_of_blank_texts (utils_nlp : Pipeline)
    (self : grammar_checker.FrenchGrammarChecker) (texts : list str)
    (w w1 : World) (docs : list Doc) :
  Forall all_whitespace texts ->
  pipe (grammar_checker._nlp self) texts w = (Returned docs, w1) ->
  batch_check utils_nlp self texts w
  = (Returned (map grammar_checker._empty_result texts), w1)
  /\ parser_calls w1 = parser_calls w ++ texts
  /\ ai_calls w1 = ai_calls w
  /\ stdout w1 = stdout w.
Proof.
  intros Hblank Hpipe.
  destruct (pipe_footprint _ _ _ _ _ Hpipe) as (Hai & Hout & Hcalls).
  split; [| split; [apply (Hcalls docs); reflexivity | split; assumption]].
  unfold batch_check. unfold bind at 1. rewrite Hpipe.
  apply for_each_blank. exact Hblank.
Qed.

Lemma batch_check_of_blank_texts_witness :
  batch_check (parser_always doc_with_full_stop) service_with_ai
    [u ""; u "  "] world0
  = (Returned [grammar_checker._empty_result (u "");
               grammar_checker._empty_result (u "  ")],
     mkWorld [u ""; u "  "] [] []).
Proof.
  refine (proj1 (batch_check_of_blank_texts
                   (parser_always doc_with_full_stop) service_with_ai
                   [u ""; u "  "] world0 (mkWorld [u ""; u "  "] [] [])
                   [doc_no_violation; doc_no_violation] _ _)).
  - repeat constructor.
  - reflexivity.
Defined.
